(** * canu, [src/utility/stddev.H]: descriptive statistics

    A shallow embedding of the components of [stddev.H]:

    - the online Welford estimator, class [stdDev];
    - the free functions [computeMode] and
      [computeMedianAbsoluteDeviation];
    - the histogram engine, class [histogramStatistics].

    Conventions.

    - A [uint32] / [uint64] value is a [Z]; every arithmetic result that C++
      reduces modulo 2^32 / 2^64 passes through [wrap32] / [wrap64].
    - A [double] is an element of a type [D] carrying the operations the
      code uses ([DoubleOps]).  The instance [binary64] is IEEE-754 double
      precision (the kernel's primitive floats): it is what the compiled
      code computes.
    - [exit(1)], a failed [assert] and a loop that never leaves are the
      three ways a call does not return; they are the constructor [Stops]
      of [run]. *)

From Stdlib Require Import PrimFloat.
From Stdlib Require Uint63.
From Stdlib Require Import ZArith List Lia Bool.
From Stdlib Require Import Sorting.Permutation Sorting.Sorted.
From stdpp Require Import base gmap list.

Local Open Scope Z_scope.

(** ** Machine integers *)

Definition wrap32 (z : Z) : Z := z mod 2 ^ 32.
Definition wrap64 (z : Z) : Z := z mod 2 ^ 64.

Definition is_uint32 (z : Z) : Prop := 0 <= z < 2 ^ 32.
Definition is_uint64 (z : Z) : Prop := 0 <= z < 2 ^ 64.

(** ** Calls that may not return *)

Inductive failure : Set :=
| ExitFull          (* "stdDev is full; can't insert() new value."            *)
| ExitFinalized     (* "stdDev has been finalized; can't insert()/remove()"   *)
| ExitNoData        (* "stdDev has no data; can't remove() old value."        *)
| AssertDeviation   (* assert(deviation < maddatamax)                         *)
| NeverReturns.     (* the growth loop of add() does not leave                *)

Inductive run (A : Type) : Type :=
| Returns (a : A)
| Stops (why : failure).

Arguments Returns {A} a.
Arguments Stops {A} why.

#[export] Instance run_ret : MRet run := fun A a => Returns a.

#[export] Instance run_bind : MBind run := fun A B k r =>
  match r with
  | Returns a => k a
  | Stops why => Stops why
  end.

(** ** Double-precision arithmetic *)

Class DoubleOps (D : Type) : Type := {
  dzero : D;                (* the literal 0.0 *)
  dadd  : D -> D -> D;
  dsub  : D -> D -> D;
  dmul  : D -> D -> D;
  ddiv  : D -> D -> D;
  dsqrt : D -> D;
  of_uint : Z -> D          (* conversion of an unsigned integer value *)
}.

(** Conversion of a [uint64] value to the nearest double.  The primitive
    conversion takes 63 bits; a value with bit 63 set is halved with its
    lowest bit kept sticky, converted, and doubled, which rounds the same. *)
Definition uint_to_float (z : Z) : float :=
  if z <? 2 ^ 63
  then PrimFloat.of_uint63 (Uint63.of_Z z)
  else PrimFloat.mul 2%float
         (PrimFloat.of_uint63 (Uint63.of_Z (Z.lor (Z.shiftr z 1) (Z.land z 1)))).

#[export] Instance binary64 : DoubleOps float := {|
  dzero := 0%float;
  dadd := PrimFloat.add;
  dsub := PrimFloat.sub;
  dmul := PrimFloat.mul;
  ddiv := PrimFloat.div;
  dsqrt := PrimFloat.sqrt;
  of_uint := uint_to_float
|}.

(** ** The online estimator: [class stdDev] *)

Module Welford.

Section Estimator.

Context {D : Type} {ops : DoubleOps D}.

Record stdDev : Type := mkStdDev {
  _mn : D;   (* mean *)
  _sn : D;   (* "sum of variances" *)
  _nn : Z    (* number of items in the set; bit 31 is the finalized flag *)
}.

(** [stdDev(double mn=0.0, double sn=0.0, uint32 nn=0)] *)
Definition new (mn sn : D) (nn : Z) : stdDev := mkStdDev mn sn nn.

Definition fresh : stdDev := new dzero dzero 0.

(** [_nn & 0x80000000], read as a condition *)
Definition finalized (st : stdDev) : bool :=
  negb (Z.land (_nn st) 0x80000000 =? 0).

Definition insert (st : stdDev) (val : D) : run stdDev :=
  let m0 := _mn st in
  let s0 := _sn st in
  let n0 := wrap32 (_nn st + 1) in
  if _nn st =? 0x7fffffff then Stops ExitFull
  else if finalized st then Stops ExitFinalized
  else
    let mn := dadd m0 (ddiv (dsub val m0) (of_uint n0)) in
    let sn := dadd s0 (dmul (dsub val m0) (dsub val mn)) in
    Returns (mkStdDev mn sn n0).

Definition remove (st : stdDev) (val : D) : run stdDev :=
  let n0 := wrap32 (_nn st - 1) in
  let m0 := if n0 =? 0 then of_uint 0
            else ddiv (dsub (dmul (of_uint (_nn st)) (_mn st)) val) (of_uint n0) in
  let s0 := dsub (_sn st) (dmul (dsub val m0) (dsub val (_mn st))) in
  if _nn st =? 0 then Stops ExitNoData
  else if finalized st then Stops ExitFinalized
  else Returns (mkStdDev m0 s0 n0).

Definition size (st : stdDev) : Z := Z.land (_nn st) 0x7fffffff.

Definition mean (st : stdDev) : D := _mn st.

Definition variance (st : stdDev) : D :=
  if finalized st then dmul (_sn st) (_sn st)
  else if _nn st <? 2 then dzero
       else ddiv (_sn st) (of_uint (wrap32 (_nn st - 1))).

Definition stddev (st : stdDev) : D :=
  if finalized st then _sn st
  else dsqrt (variance st).

Definition finalize (st : stdDev) : stdDev :=
  mkStdDev (_mn st) (stddev st) (Z.lor (_nn st) 0x80000000).

End Estimator.

Arguments stdDev D : clear implicits.

End Welford.

(** The estimator after [insert(1); insert(2); insert(4)] on a fresh one,
    in double precision. *)
Definition three_samples : run (Welford.stdDev float) :=
  st ← Welford.insert Welford.fresh 1%float;
  st ← Welford.insert st 2%float;
  Welford.insert st 4%float.

(** The estimator after [insert(3)] three times on a fresh one, in double
    precision. *)
Definition three_threes : run (Welford.stdDev float) :=
  st ← Welford.insert Welford.fresh 3%float;
  st ← Welford.insert st 3%float;
  Welford.insert st 3%float.

(** ** The free function [computeMode] *)

Module Batch.

(** [std::sort] on a [vector<TT>], for an integer type [TT]: the result is
    the ascending arrangement of the elements, which insertion sort
    computes as well. *)
Fixpoint sort_insert (x : Z) (l : list Z) : list Z :=
  match l with
  | [] => [x]
  | y :: l' => if x <=? y then x :: l else y :: sort_insert x l'
  end.

Definition sort (l : list Z) : list Z := fold_right sort_insert [] l.

(** The four locals of [computeMode]. *)
Record mode_scan : Set := mkScan {
  modeCnt : Z;       (* uint32 *)
  modeVal : Z;
  modeTmpCnt : Z;    (* uint32 *)
  modeTmpVal : Z
}.

(** [if (modeCnt < modeTmpCnt) { modeCnt = modeTmpCnt; modeVal = modeTmpVal; }] *)
Definition keep_longer (s : mode_scan) : mode_scan :=
  if modeCnt s <? modeTmpCnt s
  then mkScan (modeTmpCnt s) (modeTmpVal s) (modeTmpCnt s) (modeTmpVal s)
  else s.

(** One turn of the loop, on the element [d = dist[x]]. *)
Definition mode_step (s : mode_scan) (d : Z) : mode_scan :=
  let s1 :=
    if negb (d =? modeTmpVal s)
    then let s' := keep_longer s in
         mkScan (modeCnt s') (modeVal s') 1 d
    else s in
  mkScan (modeCnt s1) (modeVal s1) (wrap32 (modeTmpCnt s1 + 1)) (modeTmpVal s1).

(** [computeMode(dist, mode, isSorted)]; the result is the value left in
    [mode]. *)
Definition computeMode (dist : list Z) (isSorted : bool) : Z :=
  if (length dist =? 0)%nat then 0
  else
    let dist := if isSorted then dist else sort dist in
    let s := fold_left mode_step dist (mkScan 0 0 0 0) in
    modeVal (keep_longer s).

End Batch.

(** ** The histogram engine: [class histogramStatistics] *)

Module Histogram.

(** The array [_histogram] is modelled by its contents, a finite map from
    index to counter: a slot never written reads as the 0 that [memset]
    and the zero-fill of a resize put there.  The capacity is the field
    [_histogramAlloc]. *)
Definition slot (h : gmap Z Z) (ii : Z) : Z := default 0 (h !! ii).

(** Modelled from the spec: [resizeArray] is not defined in [stddev.H].
    The spec says the array "grows by doubling, zero-filling new slots":
    the contents stay and the capacity becomes [newMax]. *)
Definition resizeArray (array : gmap Z Z) (arrayLen arrayMax newMax : Z)
  : gmap Z Z * Z :=
  (array, newMax).

(** [while (_histogramAlloc <= data) resizeArray(..., _histogramAlloc * 2, ...)].
    Doubling is modulo 2^64, so after 64 turns the capacity is 0 and the
    test holds for ever: 64 turns of fuel decide whether the loop leaves. *)
Fixpoint grow (fuel : nat) (array : gmap Z Z) (max alloc data : Z)
  : option (gmap Z Z * Z) :=
  if alloc <=? data then
    match fuel with
    | O => None
    | S fuel' =>
        let '(array', alloc') :=
          resizeArray array (wrap64 (max + 1)) alloc (wrap64 (alloc * 2)) in
        grow fuel' array' max alloc' data
    end
  else Some (array, alloc).

(** The indices a loop [for (uint64 ii=0; ii <= max; ii++)] visits. *)
Definition indices (max : Z) : list Z := seqZ 0 (max + 1).

(** [for (...) _numObjs += _histogram[ii];] *)
Definition count_objects (h : gmap Z Z) (max : Z) : Z :=
  fold_left (fun n ii => wrap64 (n + slot h ii)) (indices max) 0.

(** [for (...) if (_histogram[ii] > _histogram[_mode]) _mode = ii;] *)
Definition scan_mode (h : gmap Z Z) (max : Z) : Z :=
  fold_left (fun mode ii => if slot h mode <? slot h ii then ii else mode)
            (indices max) 0.

(** The median loop, and the loop for [_mad] on [maddata]:
    [acc += h[ii];  if (acc >= half) { acc = ii; break; }].
    When the loop runs off the end the accumulator keeps the sum. *)
Fixpoint scan_half (h : gmap Z Z) (half acc : Z) (idx : list Z) : Z :=
  match idx with
  | [] => acc
  | ii :: rest =>
      let acc' := wrap64 (acc + slot h ii) in
      if half <=? acc' then ii else scan_half h half acc' rest
  end.

(** The loop that fills [maddata], with its [assert]. *)
Fixpoint fill_maddata (h : gmap Z Z) (median maddatamax : Z)
    (maddata : gmap Z Z) (idx : list Z) : run (gmap Z Z) :=
  match idx with
  | [] => Returns maddata
  | ii :: rest =>
      if 0 <? slot h ii then
        let deviation :=
          if ii <? median then wrap64 (median - ii) else wrap64 (ii - median) in
        if maddatamax <=? deviation then Stops AssertDeviation
        else fill_maddata h median maddatamax
               (<[deviation := wrap64 (slot maddata deviation + slot h ii)]> maddata)
               rest
      else fill_maddata h median maddatamax maddata rest
  end.

(** What one [add(data, count)] does to the counters and to the
    high-water index. *)
Definition bump (hm : gmap Z Z * Z) (p : Z * Z) : gmap Z Z * Z :=
  (<[p.1 := wrap64 (slot hm.1 p.1 + p.2)]> hm.1, Z.max hm.2 p.1).

(** Samples fed one at a time: each value with count 1. *)
Definition units (l : list Z) : list (Z * Z) := map (fun v => (v, 1)) l.

(** The samples a list of (value, count) pairs stands for. *)
Definition expand (l : list (Z * Z)) : list Z :=
  flat_map (fun p => repeat p.1 (Z.to_nat p.2)) l.

Section Engine.

Context {D : Type} {ops : DoubleOps D}.

Record histogramStatistics : Type := mkHistogram {
  _finalized : bool;
  _histogramAlloc : Z;     (* Maximum allocated value *)
  _histogramMax : Z;       (* Maximum valid value *)
  _histogram : gmap Z Z;
  _numObjs : Z;
  _mean : D;
  _stddev : D;
  _mode : Z;
  _median : Z;
  _mad : Z
}.

Definition clearStatistics (s : histogramStatistics) : histogramStatistics :=
  mkHistogram (_finalized s) (_histogramAlloc s) (_histogramMax s) (_histogram s)
              0 dzero dzero 0 0 0.

(** The constructor: a zeroed array of 1024 * 1024 counters, not
    finalized, statistics cleared. *)
Definition new : histogramStatistics :=
  clearStatistics
    (mkHistogram false (1024 * 1024) 0 ∅ 0 dzero dzero 0 0 0).

(** [add(data, count)]; [count] defaults to 1. *)
Definition add (s : histogramStatistics) (data count : Z)
  : run histogramStatistics :=
  match grow 64 (_histogram s) (_histogramMax s) (_histogramAlloc s) data with
  | None => Stops NeverReturns
  | Some (array, alloc) =>
      let max := if _histogramMax s <? data then data else _histogramMax s in
      Returns (mkHistogram false alloc max
                 (<[data := wrap64 (slot array data + count)]> array)
                 (_numObjs s) (_mean s) (_stddev s)
                 (_mode s) (_median s) (_mad s))
  end.

(** [for (...) _mean += ii * _histogram[ii];] *)
Definition sum_values (h : gmap Z Z) (max : Z) : D :=
  fold_left (fun m ii => dadd m (of_uint (wrap64 (ii * slot h ii))))
            (indices max) dzero.

(** [for (...) _stddev += _histogram[ii] * (ii - _mean) * (ii - _mean);] *)
Definition sum_squares (h : gmap Z Z) (max : Z) (mean : D) : D :=
  fold_left (fun sd ii =>
               dadd sd (dmul (dmul (of_uint (slot h ii))
                                   (dsub (of_uint ii) mean))
                             (dsub (of_uint ii) mean)))
            (indices max) dzero.

(** The body of [finalizeData] below its early return. *)
Definition recompute (s : histogramStatistics) : run histogramStatistics :=
  let s := clearStatistics s in
  let h := _histogram s in
  let max := _histogramMax s in
  let numObjs := count_objects h max in
  let mean := sum_values h max in
  let mean := if 1 <? numObjs then ddiv mean (of_uint numObjs) else mean in
  let stddev := sum_squares h max mean in
  let stddev :=
    if 1 <? numObjs
    then dsqrt (ddiv stddev (of_uint (wrap64 (numObjs - 1))))
    else stddev in
  let mode := scan_mode h max in
  let median := scan_half h (numObjs / 2) 0 (indices max) in
  let maddatamax := wrap64 (max + 1) in
  maddata ← fill_maddata h median maddatamax ∅ (indices max);
  let mad := scan_half maddata (numObjs / 2) 0 (indices max) in
  Returns (mkHistogram true (_histogramAlloc s) max h
             numObjs mean stddev mode median mad).

Definition finalizeData (s : histogramStatistics) : run histogramStatistics :=
  if _finalized s then Returns s else recompute s.

Definition numberOfObjects (s : histogramStatistics) : run (Z * histogramStatistics) :=
  s' ← finalizeData s; Returns (_numObjs s', s').

Definition mean (s : histogramStatistics) : run (D * histogramStatistics) :=
  s' ← finalizeData s; Returns (_mean s', s').

Definition stddev (s : histogramStatistics) : run (D * histogramStatistics) :=
  s' ← finalizeData s; Returns (_stddev s', s').

Definition median (s : histogramStatistics) : run (Z * histogramStatistics) :=
  s' ← finalizeData s; Returns (_median s', s').

Definition mad (s : histogramStatistics) : run (Z * histogramStatistics) :=
  s' ← finalizeData s; Returns (_mad s', s').

Definition histogram (s : histogramStatistics) (ii : Z) : Z :=
  slot (_histogram s) ii.

Definition histogramMax (s : histogramStatistics) : Z := _histogramMax s.

(** The read interface as one call: which accessor, and what it gives
    back, an integer or a double, with the state it leaves. *)
Inductive accessor : Set :=
| NumberOfObjects | Mean | Stddev | Median | Mad
| HistogramAt (ii : Z) | HistogramMax.

Inductive value : Type :=
| Count (z : Z)
| Real (d : D).

Definition call (a : accessor) (s : histogramStatistics)
  : run (value * histogramStatistics) :=
  match a with
  | NumberOfObjects => '(z, s') ← numberOfObjects s; Returns (Count z, s')
  | Mean => '(d, s') ← mean s; Returns (Real d, s')
  | Stddev => '(d, s') ← stddev s; Returns (Real d, s')
  | Median => '(z, s') ← median s; Returns (Count z, s')
  | Mad => '(z, s') ← mad s; Returns (Count z, s')
  | HistogramAt ii => Returns (Count (histogram s ii), s)
  | HistogramMax => Returns (Count (histogramMax s), s)
  end.

(** The accessors of the cached statistics. *)
Definition reads_cache (a : accessor) : bool :=
  match a with
  | HistogramAt _ | HistogramMax => false
  | _ => true
  end.

(** The cached field an accessor of the statistics returns. *)
Definition cached (a : accessor) (s : histogramStatistics) : value :=
  match a with
  | NumberOfObjects => Count (_numObjs s)
  | Mean => Real (_mean s)
  | Stddev => Real (_stddev s)
  | Median => Count (_median s)
  | Mad => Count (_mad s)
  | HistogramAt ii => Count (histogram s ii)
  | HistogramMax => Count (histogramMax s)
  end.

(** A series of accessor calls, each on the state the one before left. *)
Fixpoint calls (l : list accessor) (s : histogramStatistics)
  : run (list value * histogramStatistics) :=
  match l with
  | [] => Returns ([], s)
  | a :: l' =>
      '(v, s1) ← call a s;
      '(vs, s2) ← calls l' s1;
      Returns (v :: vs, s2)
  end.

(** A series of [add(data, count)] calls. *)
Fixpoint add_all (l : list (Z * Z)) (s : histogramStatistics)
  : run histogramStatistics :=
  match l with
  | [] => Returns s
  | (data, count) :: l' => s' ← add s data count; add_all l' s'
  end.

(** The six cached statistics. *)
Definition summary (s : histogramStatistics) : Z * D * D * Z * Z * Z :=
  (_numObjs s, _mean s, _stddev s, _mode s, _median s, _mad s).

(** [add] each pair to a new engine, then [finalizeData], then read the
    six statistics. *)
Definition summary_of (l : list (Z * Z)) : run (Z * D * D * Z * Z * Z) :=
  s ← add_all l new; s' ← finalizeData s; Returns (summary s').

(** What an accessor of the statistics returns on a cleared cache. *)
Definition zeroed (a : accessor) : value :=
  match a with
  | Mean | Stddev => Real dzero
  | _ => Count 0
  end.

(** The capacity is a power of two from 2^20 up to 2^63 and the
    high-water index is inside it. *)
Definition well_sized (s : histogramStatistics) : Prop :=
  (0 <= _histogramMax s < _histogramAlloc s) /\
  (exists k, 20 <= k <= 63 /\ _histogramAlloc s = 2 ^ k).

(** The states the public mutators lead to from a new engine. *)
Inductive reachable : histogramStatistics -> Prop :=
| reach_new : reachable new
| reach_add s data count s' :
    reachable s -> is_uint64 data -> is_uint32 count ->
    add s data count = Returns s' -> reachable s'
| reach_finalize s s' :
    reachable s -> finalizeData s = Returns s' -> reachable s'
| reach_clear s :
    reachable s -> reachable (clearStatistics s).

End Engine.

Arguments histogramStatistics D : clear implicits.
Arguments value D : clear implicits.

End Histogram.

(** ** Counting samples in a histogram *)

(** The number of samples a series of [add] feeds, as a [uint64]. *)
Definition total_count (ps : list (Z * Z)) : Z :=
  fold_left (fun n p => wrap64 (n + p.2)) ps 0.

(** The number of samples, as a [uint64], whose value in 0..max lies
    within [k] of [median]. *)
Definition near (h : gmap Z Z) (median max k : Z) : Z :=
  fold_left
    (fun n ii =>
       wrap64 (n + (if Z.abs (ii - median) <=? k then Histogram.slot h ii else 0)))
    (Histogram.indices max) 0.

(** No counter above the high-water index [hm.2] is set, and every
    counter is a [uint64]. *)
Definition bounded (hm : gmap Z Z * Z) : Prop :=
  0 <= hm.2 /\
  (forall ii, hm.2 < ii -> Histogram.slot hm.1 ii = 0) /\
  (forall ii, is_uint64 (Histogram.slot hm.1 ii)).

(** ** Sample states *)

(** The binary64 engine after [add(7, 2)] on a new one. *)
Definition after_add_7_2 : Histogram.histogramStatistics float :=
  Histogram.mkHistogram false (2 ^ 20) 7 (<[7 := 2]> ∅)
                        0 0%float 0%float 0 0 0.

(** ** Counting occurrences in a sequence *)

(** How many times [x] occurs in [l]. *)
Fixpoint times (x : Z) (l : list Z) : Z :=
  match l with
  | [] => 0
  | y :: l' => (if y =? x then 1 else 0) + times x l'
  end.

(** The sequence starts with the value 0. *)
Definition zero_first (l : list Z) : bool :=
  match l with
  | x :: _ => x =? 0
  | [] => false
  end.

(** The length [computeMode] ascribes to the run of [x] in [l]: one more
    than its number of elements, except for a run of 0 that starts the
    sequence ([lead]), which is counted as it is. *)
Definition weight (lead : bool) (l : list Z) (x : Z) : Z :=
  times x l + (if lead && (x =? 0) then 0 else 1).

(** What the locals of [computeMode] hold after the loop has run over
    the ascending prefix [p]: the current run is that of the last and
    greatest value; the best run so far, when a run has been closed, is
    the first among the closed runs with the greatest weight. *)
Definition scanned (lead : bool) (p : list Z) (s : Batch.mode_scan) : Prop :=
  let t := Batch.modeTmpVal s in
  In t p /\
  (forall x, In x p -> x <= t) /\
  (lead = true -> In 0 p) /\
  Batch.modeTmpCnt s = weight lead p t /\
  ((Batch.modeCnt s = 0 /\ Batch.modeVal s = 0 /\ forall x, In x p -> x = t) \/
   (In (Batch.modeVal s) p /\ Batch.modeVal s < t /\
    Batch.modeCnt s = weight lead p (Batch.modeVal s) /\
    (forall x, In x p -> x < Batch.modeVal s ->
       weight lead p x < Batch.modeCnt s) /\
    (forall x, In x p -> x < t -> weight lead p x <= Batch.modeCnt s))).

(** ** The free function [computeMedianAbsoluteDeviation] *)

Module BatchMedian.

(** [(x < median) ? (median - x) : (x - median)] on [TT = uint64]: the
    subtraction is modulo 2^64, and always of the smaller from the
    greater. *)
Definition deviation (median x : Z) : Z :=
  if x <? median then wrap64 (median - x) else wrap64 (x - median).

(** [computeMedianAbsoluteDeviation(dist, median, mad, isSorted)] for
    [TT = uint64]; the result is the pair left in [median] and [mad]. *)
Definition computeMedianAbsoluteDeviation (dist : list Z) (isSorted : bool)
  : Z * Z :=
  if (length dist =? 0)%nat then (0, 0)
  else
    let dist := if isSorted then dist else Batch.sort dist in
    let median := nth (length dist / 2) dist 0 in
    let m := map (deviation median) dist in
    let m := Batch.sort m in
    (median, nth (length m / 2) m 0).

End BatchMedian.

(** How many elements of [l] pass the test [f]. *)
Fixpoint how_many (f : Z -> bool) (l : list Z) : Z :=
  match l with
  | [] => 0
  | x :: l' => (if f x then 1 else 0) + how_many f l'
  end.

(** * Properties *)

(** ** Machine integers *)

Lemma wrap32_small (z : Z) : is_uint32 z -> wrap32 z = z.
Proof. intros Hz. apply Z.mod_small. exact Hz. Qed.

Lemma wrap64_small (z : Z) : is_uint64 z -> wrap64 z = z.
Proof. intros Hz. apply Z.mod_small. exact Hz. Qed.

Lemma wrap64_range (z : Z) : is_uint64 (wrap64 z).
Proof. apply Z.mod_pos_bound. reflexivity. Qed.

(** Bit 31 of a [uint32] is set exactly from 2^31 on. *)
Lemma land_bit31 (n : Z) :
  is_uint32 n -> Z.land n 0x80000000 = if n <? 2 ^ 31 then 0 else 2 ^ 31.
Proof.
  intros [Hlo Hhi].
  change 0x80000000 with (2 ^ 31).
  destruct (Z.ltb_spec n (2 ^ 31)) as [Hlt | Hge].
  - apply Z.bits_inj'. intros k Hk.
    rewrite Z.land_spec, Z.pow2_bits_eqb, Z.bits_0 by lia.
    destruct (Z.eqb_spec 31 k) as [<- | Hne].
    + rewrite andb_true_r. apply Z.testbit_false; [lia |].
      rewrite Z.div_small by lia. reflexivity.
    + apply andb_false_r.
  - apply Z.bits_inj'. intros k Hk.
    rewrite Z.land_spec, !Z.pow2_bits_eqb by lia.
    destruct (Z.eqb_spec 31 k) as [<- | Hne].
    + rewrite andb_true_r.
      apply Z.testbit_true; [lia |].
      replace (n / 2 ^ 31) with 1; [reflexivity |].
      apply Z.div_unique with (r := n - 2 ^ 31); lia.
    + apply andb_false_r.
Qed.

(** The low 31 bits of a [uint32]. *)
Lemma land_low31 (n : Z) : Z.land n 0x7fffffff = n mod 2 ^ 31.
Proof. change 0x7fffffff with (Z.ones 31). apply Z.land_ones. lia. Qed.

(** Setting bit 31 makes the test of bit 31 succeed, whatever the word. *)
Lemma land_lor_bit31 (n : Z) : Z.land (Z.lor n 0x80000000) 0x80000000 <> 0.
Proof.
  rewrite Z.land_lor_distr_l, Z.land_diag.
  intros H. apply Z.lor_eq_0_iff in H. destruct H as [_ H]. discriminate H.
Qed.

(** ** The online estimator *)

Section WelfordFacts.

Import Welford.

Context {D : Type} {ops : DoubleOps D}.

Lemma finalized_range (st : stdDev D) :
  is_uint32 (_nn st) -> finalized st = negb (_nn st <? 2 ^ 31).
Proof.
  intros Hr. unfold finalized. rewrite (land_bit31 _ Hr).
  destruct (_nn st <? 2 ^ 31); reflexivity.
Qed.

Lemma finalized_finalize (st : stdDev D) : finalized (finalize st) = true.
Proof.
  unfold finalized, finalize; simpl.
  destruct (Z.eqb_spec (Z.land (Z.lor (_nn st) 0x80000000) 0x80000000) 0) as [H | H].
  - exfalso. exact (land_lor_bit31 _ H).
  - reflexivity.
Qed.

(** C6.  Finalizing keeps the standard deviation: after [finalize()],
    [stddev()] is the value [stddev()] had just before, and [variance()]
    is that value multiplied by itself.  This holds in every state, also
    one that was finalized before. *)
Theorem finalize_keeps_stddev (st : stdDev D) :
  stddev (finalize st) = stddev st /\
  variance (finalize st) = dmul (stddev st) (stddev st).
Proof.
  split.
  - unfold stddev at 1. rewrite finalized_finalize. reflexivity.
  - unfold variance. rewrite finalized_finalize. reflexivity.
Qed.

(** C7.  On a 32-bit count word, [insert] stops the process exactly when
    the sample count is 2^31-1 or the estimator is finalized, [remove]
    exactly when the sample count is 0 or the estimator is finalized; in
    every other state each of them returns a new state. *)
Theorem insert_remove_stop_iff (st : stdDev D) (v : D)
    (Hword : is_uint32 (_nn st)) :
  ((exists why, insert st v = Stops why) <->
     (size st = 0x7fffffff \/ finalized st = true)) /\
  ((exists why, remove st v = Stops why) <->
     (size st = 0 \/ finalized st = true)) /\
  ((exists st', insert st v = Returns st') <->
     ~ (size st = 0x7fffffff \/ finalized st = true)) /\
  ((exists st', remove st v = Returns st') <->
     ~ (size st = 0 \/ finalized st = true)).
Proof.
  pose proof (finalized_range st Hword) as Hfin.
  unfold insert, remove, size. rewrite land_low31, Hfin.
  destruct Hword as [Hlo Hhi].
  assert (Hmod : _nn st < 2 ^ 31 -> _nn st mod 2 ^ 31 = _nn st)
    by (intros; apply Z.mod_small; lia).
  assert (Hmod' : 2 ^ 31 <= _nn st ->
                  _nn st mod 2 ^ 31 = _nn st - 2 ^ 31).
  { intros. symmetry. apply Z.mod_unique with (q := 1); lia. }
  destruct (Z.ltb_spec (_nn st) (2 ^ 31)) as [Hlt | Hge]; simpl.
  - rewrite (Hmod Hlt).
    destruct (Z.eqb_spec (_nn st) 0x7fffffff) as [E1 | E1];
      destruct (Z.eqb_spec (_nn st) 0) as [E0 | E0];
      repeat split;
      try (intros [? ?]; discriminate);
      try (intros [? | ?]; (lia || discriminate));
      try (intros; eexists; reflexivity);
      try (intros ? [? | ?]; (lia || discriminate));
      try (intros HH; exfalso; apply HH; left; assumption);
      try tauto.
  - rewrite (Hmod' Hge).
    destruct (Z.eqb_spec (_nn st) 0x7fffffff) as [E1 | E1];
      destruct (Z.eqb_spec (_nn st) 0) as [E0 | E0];
      repeat split;
      try (intros [? ?]; discriminate);
      try (intros; eexists; reflexivity);
      try (intros; right; reflexivity);
      try (intros HH; exfalso; apply HH; right; reflexivity);
      try lia.
Qed.

End WelfordFacts.

(** A witness of [insert_remove_stop_iff]: the fresh binary64 estimator. *)
Lemma insert_remove_stop_iff_fresh :
  is_uint32 (Welford._nn (Welford.fresh (D := float))) /\
  ((exists st', Welford.insert (Welford.fresh (D := float)) 1%float = Returns st') <->
     ~ (Welford.size (Welford.fresh (D := float)) = 0x7fffffff \/
        Welford.finalized (Welford.fresh (D := float)) = true)).
Proof.
  assert (Hw : is_uint32 (Welford._nn (Welford.fresh (D := float))))
    by (unfold is_uint32; simpl; lia).
  split; [exact Hw |].
  exact (proj1 (proj2 (proj2
          (insert_remove_stop_iff (Welford.fresh (D := float)) 1%float Hw)))).
Defined.

(** C3 does not hold in double precision.  After [insert(1)],
    [insert(2)], [insert(4)] the estimator is not finalized and holds three
    samples, yet [insert(5)] followed by [remove(5)] returns a state whose
    variance is strictly above the variance before the insert.  After
    [insert(3)] three times the mean is 3, and [insert(1e17)] followed by
    [remove(1e17)] returns a state whose mean is above 5. *)
Lemma insert_remove_rounds_binary64 :
  (exists st0 st2 : Welford.stdDev float,
     three_samples = Returns st0 /\
     Welford.finalized st0 = false /\
     Welford._nn st0 = 3 /\
     (st1 ← Welford.insert st0 5%float; Welford.remove st1 5%float)
       = Returns st2 /\
     PrimFloat.ltb (Welford.variance st0) (Welford.variance st2) = true) /\
  (exists st0 st2 : Welford.stdDev float,
     three_threes = Returns st0 /\
     Welford.finalized st0 = false /\
     Welford.mean st0 = 3%float /\
     (st1 ← Welford.insert st0 1e17%float; Welford.remove st1 1e17%float)
       = Returns st2 /\
     PrimFloat.ltb 5%float (Welford.mean st2) = true).
Proof.
  split.
  - eexists. eexists.
    split; [vm_compute; reflexivity |].
    repeat split; vm_compute; reflexivity.
  - eexists. eexists.
    split; [vm_compute; reflexivity |].
    repeat split; vm_compute; reflexivity.
Qed.

(** C3, amended.  In a state whose count word is below 2^31-1 (so not
    finalized and not full), in double precision as in any arithmetic,
    [insert(v)] returns, [remove(v)] on the state it leaves returns, and
    the count word and [size()] are again those before the insert, with
    the finalized bit still clear.  Nothing is said of mean and variance. *)
Theorem insert_remove_restores_count
    {D : Type} {ops : DoubleOps D} (st : Welford.stdDev D) (v : D)
    (Hnn : 0 <= Welford._nn st < 0x7fffffff) :
  exists st1 st2 : Welford.stdDev D,
    Welford.insert st v = Returns st1 /\
    Welford.remove st1 v = Returns st2 /\
    Welford._nn st2 = Welford._nn st /\
    Welford.size st2 = Welford.size st /\
    Welford.finalized st2 = false.
Proof.
  destruct st as [mn sn nn]. simpl in Hnn.
  assert (Hw1 : wrap32 (nn + 1) = nn + 1)
    by (apply wrap32_small; unfold is_uint32; lia).
  assert (Hw0 : wrap32 (nn + 1 - 1) = nn)
    by (replace (nn + 1 - 1) with nn by lia;
        apply wrap32_small; unfold is_uint32; lia).
  assert (Hfin : forall (a b : D) (k : Z), 0 <= k < 2 ^ 31 ->
            Welford.finalized (Welford.mkStdDev a b k) = false).
  { intros a b k Hk. rewrite finalized_range.
    - simpl. destruct (Z.ltb_spec k (2 ^ 31)); [reflexivity | lia].
    - unfold is_uint32; simpl; lia. }
  unfold Welford.insert; simpl.
  destruct (Z.eqb_spec nn 0x7fffffff) as [E | _]; [lia |].
  rewrite Hfin by lia. rewrite Hw1.
  eexists. eexists. split; [reflexivity |].
  unfold Welford.remove; simpl.
  destruct (Z.eqb_spec (nn + 1) 0) as [E | _]; [lia |].
  rewrite Hfin by lia. rewrite Hw0.
  split; [reflexivity |]. simpl. split; [reflexivity |].
  split; [reflexivity |]. apply Hfin. lia.
Qed.

(** A witness of [insert_remove_restores_count]: one sample held, in
    double precision. *)
Lemma insert_remove_restores_count_one :
  0 <= Welford._nn (Welford.mkStdDev 1%float 0%float 1) < 0x7fffffff /\
  exists st1 st2 : Welford.stdDev float,
    Welford.insert (Welford.mkStdDev 1%float 0%float 1) 2%float = Returns st1 /\
    Welford.remove st1 2%float = Returns st2 /\
    Welford._nn st2 = 1.
Proof.
  assert (H1 : 0 <= Welford._nn (Welford.mkStdDev 1%float 0%float 1)
               < 0x7fffffff) by (simpl; lia).
  split; [exact H1 |].
  destruct (insert_remove_restores_count
              (Welford.mkStdDev 1%float 0%float 1) 2%float H1)
    as (st1 & st2 & Hins & Hrem & Hnn & _).
  exists st1, st2. split; [exact Hins |]. split; [exact Hrem | exact Hnn].
Defined.

(** ** The histogram engine: the loops of [finalizeData] *)

Section ScanFacts.

Import Histogram.

Variable h : gmap Z Z.

Lemma elem_of_indices (max ii : Z) : ii ∈ indices max <-> 0 <= ii <= max.
Proof. unfold indices. rewrite elem_of_seqZ. lia. Qed.

Lemma indices_snoc (k : Z) : 0 <= k -> indices k = indices (k - 1) ++ [k].
Proof.
  intros Hk. unfold indices.
  replace (k + 1) with ((k - 1 + 1) + 1) at 1 by lia.
  rewrite seqZ_app by lia.
  rewrite (seqZ_cons _ 1) by lia.
  rewrite (seqZ_nil _ (Z.pred 1)) by lia.
  repeat f_equal. lia.
Qed.

Lemma indices_negative (k : Z) : k < 0 -> indices k = [].
Proof. intros Hk. unfold indices. apply seqZ_nil. lia. Qed.

Lemma count_objects_snoc (k : Z) :
  0 <= k ->
  count_objects h k = wrap64 (count_objects h (k - 1) + slot h k).
Proof.
  intros Hk. unfold count_objects at 1.
  rewrite (indices_snoc k Hk), fold_left_app. reflexivity.
Qed.

Lemma count_objects_negative (k : Z) : k < 0 -> count_objects h k = 0.
Proof.
  intros Hk. unfold count_objects. rewrite indices_negative by exact Hk.
  reflexivity.
Qed.

Lemma count_objects_range (k : Z) : is_uint64 (count_objects h k).
Proof.
  destruct (Z_lt_le_dec k 0) as [Hneg | Hpos].
  - rewrite count_objects_negative by exact Hneg. unfold is_uint64. lia.
  - rewrite count_objects_snoc by exact Hpos. apply wrap64_range.
Qed.

Lemma scan_mode_snoc (k : Z) :
  0 <= k ->
  scan_mode h k =
    if slot h (scan_mode h (k - 1)) <? slot h k then k else scan_mode h (k - 1).
Proof.
  intros Hk. unfold scan_mode at 1.
  rewrite (indices_snoc k Hk), fold_left_app. reflexivity.
Qed.

(** The mode loop leaves the first index, among 0..max, whose counter is
    the greatest. *)
Lemma scan_mode_first_maximum (max : Z) :
  0 <= max ->
  0 <= scan_mode h max <= max /\
  (forall j, 0 <= j <= max -> slot h j <= slot h (scan_mode h max)) /\
  (forall j, 0 <= j < scan_mode h max -> slot h j < slot h (scan_mode h max)).
Proof.
  intros Hmax. pattern max. apply natlike_ind; [| | exact Hmax].
  - assert (E : scan_mode h 0 = 0).
    { unfold scan_mode, indices. rewrite (seqZ_cons 0 (0 + 1)) by lia.
      rewrite seqZ_nil by lia. simpl. destruct (_ <? _); reflexivity. }
    rewrite E. repeat split; try lia.
    intros j Hj. replace j with 0 by lia. lia.
  - intros k Hk (Hr & Hmaxi & Hfirst).
    rewrite (scan_mode_snoc (Z.succ k)) by lia.
    replace (Z.succ k - 1) with k by lia.
    destruct (Z.ltb_spec (slot h (scan_mode h k)) (slot h (Z.succ k)))
      as [Hlt | Hge].
    + split; [lia |]. split.
      * intros j Hj. destruct (Z.eq_dec j (Z.succ k)) as [-> | Hne]; [lia |].
        specialize (Hmaxi j). lia.
      * intros j Hj. specialize (Hmaxi j). lia.
    + split; [lia |]. split.
      * intros j Hj. destruct (Z.eq_dec j (Z.succ k)) as [-> | Hne]; [lia |].
        apply Hmaxi. lia.
      * exact Hfirst.
Qed.

(** The scan for the median, started at index [a] with the counters below
    [a] already summed, stops at the first index whose running sum reaches
    [half], provided the sum over the whole range does. *)
Lemma scan_half_from (half : Z) (n : nat) :
  forall a : Z,
    0 <= a -> (0 < n)%nat ->
    half <= count_objects h (a + Z.of_nat n - 1) ->
    let m := scan_half h half (count_objects h (a - 1)) (seqZ a (Z.of_nat n)) in
    a <= m < a + Z.of_nat n /\
    half <= count_objects h m /\
    (forall j, a <= j < m -> count_objects h j < half).
Proof.
  induction n as [| n IH]; intros a Ha Hn Hfull; [lia |].
  rewrite seqZ_cons by lia. simpl scan_half.
  rewrite <- (count_objects_snoc a Ha).
  replace (Z.pred (Z.of_nat (S n))) with (Z.of_nat n) by lia.
  destruct (Z.leb_spec half (count_objects h a)) as [Hreach | Hnot].
  - cbv zeta. split; [lia |]. split; [exact Hreach |]. intros j Hj. lia.
  - destruct n as [| n'].
    + exfalso. replace (a + Z.of_nat 1 - 1) with a in Hfull by lia. lia.
    + assert (Hrec := IH (Z.succ a) ltac:(lia) ltac:(lia)).
      replace (Z.succ a - 1) with a in Hrec by lia.
      replace (Z.succ a + Z.of_nat (S n') - 1)
        with (a + Z.of_nat (S (S n')) - 1) in Hrec by lia.
      specialize (Hrec Hfull). cbv zeta in Hrec.
      destruct Hrec as (Hr & Hreach & Hbelow).
      cbv zeta. split; [lia |]. split; [exact Hreach |].
      intros j Hj. destruct (Z.eq_dec j a) as [-> | Hne]; [exact Hnot |].
      apply Hbelow. lia.
Qed.

(** The median loop over 0..max: it always breaks, at the first index
    where the running sum of the counters is at least [numObjs / 2]
    (the integer quotient). *)
Lemma scan_half_first_reaching (max : Z) :
  0 <= max ->
  let half := count_objects h max / 2 in
  let m := scan_half h half 0 (indices max) in
  0 <= m <= max /\
  half <= count_objects h m /\
  (forall j, 0 <= j < m -> count_objects h j < half).
Proof.
  intros Hmax half m.
  pose proof (count_objects_range max) as [Hlo _].
  assert (Hhalf : half <= count_objects h max).
  { subst half. apply Z.div_le_upper_bound; lia. }
  pose proof (scan_half_from half (Z.to_nat (max + 1)) 0
                ltac:(lia) ltac:(lia)) as Hscan.
  rewrite Z2Nat.id in Hscan by lia.
  replace (0 + (max + 1) - 1) with max in Hscan by lia.
  rewrite (count_objects_negative (0 - 1)) in Hscan by lia.
  specialize (Hscan Hhalf). cbv zeta in Hscan.
  fold (indices max) in Hscan. fold m in Hscan.
  destruct Hscan as (Hr & Hreach & Hbelow).
  split; [lia |]. split; [exact Hreach |]. exact Hbelow.
Qed.

(** With the median inside 0..max and no wrap in [max + 1], the [assert]
    in the loop that fills [maddata] never fails. *)
Lemma fill_maddata_returns (max median : Z) (idx : list Z) :
  0 <= median <= max -> max + 1 < 2 ^ 64 ->
  (forall ii, ii ∈ idx -> 0 <= ii <= max) ->
  forall maddata, exists maddata',
    fill_maddata h median (wrap64 (max + 1)) maddata idx = Returns maddata'.
Proof.
  intros Hmed Hmax. rewrite wrap64_small by (unfold is_uint64; lia).
  induction idx as [| ii rest IH]; intros Hidx maddata; simpl.
  - eexists. reflexivity.
  - assert (Hii : 0 <= ii <= max) by (apply Hidx; left).
    assert (Hrest : forall jj, jj ∈ rest -> 0 <= jj <= max)
      by (intros jj Hjj; apply Hidx; right; exact Hjj).
    destruct (0 <? slot h ii); [| apply IH; exact Hrest].
    destruct (Z.ltb_spec ii median) as [Hlt | Hge].
    + rewrite wrap64_small by (unfold is_uint64; lia).
      destruct (Z.leb_spec (max + 1) (median - ii)); [lia |].
      apply IH. exact Hrest.
    + rewrite wrap64_small by (unfold is_uint64; lia).
      destruct (Z.leb_spec (max + 1) (ii - median)); [lia |].
      apply IH. exact Hrest.
Qed.

End ScanFacts.

(** ** The histogram engine: capacity and growth *)

Section GrowFacts.

Import Histogram.

Lemma pow2_pos (k : Z) : 0 <= k -> 0 < 2 ^ k.
Proof. intros Hk. apply Z.pow_pos_nonneg; lia. Qed.

Lemma pow2_double (k : Z) : 0 <= k < 63 -> wrap64 (2 ^ k * 2) = 2 ^ (k + 1).
Proof.
  intros Hk. rewrite Z.pow_add_r by lia. change (2 ^ 1) with 2.
  apply wrap64_small. unfold is_uint64.
  assert (2 ^ k < 2 ^ 63) by (apply Z.pow_lt_mono_r; lia).
  pose proof (pow2_pos k ltac:(lia)). lia.
Qed.

(** A capacity of 0 is never enough. *)
Lemma grow_zero (fuel : nat) (array : gmap Z Z) (max data : Z) :
  0 <= data -> grow fuel array max 0 data = None.
Proof.
  intros Hd. induction fuel as [| fuel IH]; simpl.
  - destruct (Z.leb_spec 0 data); [reflexivity | lia].
  - destruct (Z.leb_spec 0 data); [| lia]. exact IH.
Qed.

(** From a capacity 2^k the loop leaves, when it leaves, with a capacity
    2^k' above [data], and the counters untouched. *)
Lemma grow_some (fuel : nat) (array : gmap Z Z) (max data : Z) :
  0 <= data ->
  forall k array' alloc',
    0 <= k <= 63 ->
    grow fuel array max (2 ^ k) data = Some (array', alloc') ->
    array' = array /\ data < alloc' /\
    exists k', k <= k' <= 63 /\ alloc' = 2 ^ k'.
Proof.
  intros Hd. induction fuel as [| fuel IH]; intros k array' alloc' Hk; simpl.
  - destruct (Z.leb_spec (2 ^ k) data); [discriminate |].
    intros [= <- <-]. split; [reflexivity |]. split; [lia |].
    exists k. split; [lia | reflexivity].
  - destruct (Z.leb_spec (2 ^ k) data) as [Hle | Hgt].
    + destruct (Z.eq_dec k 63) as [-> | Hne].
      * change (wrap64 (2 ^ 63 * 2)) with 0.
        rewrite grow_zero by exact Hd. discriminate.
      * rewrite pow2_double by lia. intros Hrec.
        destruct (IH (k + 1) array' alloc' ltac:(lia) Hrec)
          as (Ha & Hlt & k' & Hk' & Ealloc).
        split; [exact Ha |]. split; [exact Hlt |].
        exists k'. split; [lia | exact Ealloc].
    + intros [= <- <-]. split; [reflexivity |]. split; [lia |].
      exists k. split; [lia | reflexivity].
Qed.

(** For [data] below 2^63 the loop leaves, given fuel for the doublings
    up to 2^63. *)
Lemma grow_returns (fuel : nat) (array : gmap Z Z) (max data : Z) :
  0 <= data < 2 ^ 63 ->
  forall k, 0 <= k <= 63 -> 63 - k < Z.of_nat fuel ->
    exists alloc', grow fuel array max (2 ^ k) data = Some (array, alloc').
Proof.
  intros Hd. induction fuel as [| fuel IH]; intros k Hk Hfuel; [lia |].
  simpl. destruct (Z.leb_spec (2 ^ k) data) as [Hle | Hgt].
  - assert (k < 63).
    { destruct (Z_lt_le_dec k 63) as [? | Hge]; [assumption |].
      replace k with 63 in Hle by lia. lia. }
    rewrite pow2_double by lia. apply IH; lia.
  - eexists. reflexivity.
Qed.

(** For [data] from 2^63 on the loop does not leave. *)
Lemma grow_never (fuel : nat) (array : gmap Z Z) (max data : Z) :
  2 ^ 63 <= data ->
  forall k, 0 <= k <= 63 -> grow fuel array max (2 ^ k) data = None.
Proof.
  intros Hd. induction fuel as [| fuel IH]; intros k Hk; simpl.
  - assert (2 ^ k <= 2 ^ 63) by (apply Z.pow_le_mono_r; lia).
    destruct (Z.leb_spec (2 ^ k) data); [reflexivity | lia].
  - assert (2 ^ k <= 2 ^ 63) by (apply Z.pow_le_mono_r; lia).
    destruct (Z.leb_spec (2 ^ k) data); [| lia].
    destruct (Z.eq_dec k 63) as [-> | Hne].
    + change (wrap64 (2 ^ 63 * 2)) with 0. apply grow_zero. lia.
    + rewrite pow2_double by lia. apply IH. lia.
Qed.

End GrowFacts.

(** ** The histogram engine: [add], [finalizeData] and the accessors *)

Section EngineFacts.

Import Histogram.

Context {D : Type} {ops : DoubleOps D}.

#[local] Abbreviation engine := (histogramStatistics D).

Lemma new_well_sized : well_sized (new (D := D)).
Proof.
  split; [simpl; lia |]. exists 20. split; [lia | reflexivity].
Qed.

(** What a returning [add] leaves: the flag down, the capacity still a
    power of two above the high-water index, one counter advanced, the
    cached statistics as they were. *)
Lemma add_Returns (s s' : engine) (data count : Z) :
  well_sized s -> 0 <= data ->
  add s data count = Returns s' ->
  well_sized s' /\
  _finalized s' = false /\
  (_histogram s', _histogramMax s')
    = bump (_histogram s, _histogramMax s) (data, count) /\
  summary s' = summary s.
Proof.
  intros [Hmax (k & Hk & Ealloc)] Hd. unfold add. rewrite Ealloc.
  destruct (grow 64 _ _ _ data) as [[array alloc'] |] eqn:Egrow;
    [| discriminate].
  apply grow_some in Egrow; [| exact Hd | lia].
  destruct Egrow as (-> & Hlt & k' & Hk' & ->).
  intros [= <-]. simpl.
  assert (2 ^ k <= 2 ^ k') by (apply Z.pow_le_mono_r; lia).
  split; [| split; [reflexivity | split; [| reflexivity]]].
  - split.
    + simpl. destruct (Z.ltb_spec (_histogramMax s) data); lia.
    + exists k'. split; [lia | reflexivity].
  - unfold bump. simpl. f_equal.
    destruct (Z.ltb_spec (_histogramMax s) data); lia.
Qed.

(** [add] returns for every value below 2^63. *)
Lemma add_returns (s : engine) (data count : Z) :
  well_sized s -> 0 <= data < 2 ^ 63 ->
  exists s', add s data count = Returns s'.
Proof.
  intros [Hmax (k & Hk & Ealloc)] Hd. unfold add. rewrite Ealloc.
  destruct (grow_returns 64 (_histogram s) (_histogramMax s) data Hd k)
    as [alloc' ->]; [lia | lia |].
  eexists. reflexivity.
Qed.

(** The recomputation returns whenever [max + 1] does not wrap, and what
    it stores is what the loops compute from the counters. *)
Lemma recompute_Returns (s : engine) :
  0 <= _histogramMax s -> _histogramMax s + 1 < 2 ^ 64 ->
  exists s',
    recompute s = Returns s' /\
    _finalized s' = true /\
    _histogramAlloc s' = _histogramAlloc s /\
    _histogramMax s' = _histogramMax s /\
    _histogram s' = _histogram s /\
    _numObjs s' = count_objects (_histogram s) (_histogramMax s) /\
    _mode s' = scan_mode (_histogram s) (_histogramMax s) /\
    _median s' = scan_half (_histogram s)
                   (count_objects (_histogram s) (_histogramMax s) / 2)
                   0 (indices (_histogramMax s)).
Proof.
  intros Hlo Hhi. unfold recompute. simpl.
  pose proof (scan_half_first_reaching (_histogram s) (_histogramMax s) Hlo)
    as Hmed. cbv zeta in Hmed. destruct Hmed as (Hmed & _).
  destruct (fill_maddata_returns (_histogram s) (_histogramMax s) _
              (indices (_histogramMax s)) Hmed Hhi
              (fun ii => proj1 (elem_of_indices _ ii)) ∅) as [maddata ->].
  simpl. eexists. split; [reflexivity |]. simpl. repeat split; reflexivity.
Qed.

Lemma finalizeData_Returns_sized (s s' : engine) :
  finalizeData s = Returns s' ->
  _finalized s' = true /\
  _histogramAlloc s' = _histogramAlloc s /\
  _histogramMax s' = _histogramMax s /\
  _histogram s' = _histogram s.
Proof.
  unfold finalizeData. destruct (_finalized s) eqn:Efin.
  - intros [= <-]. repeat split; [exact Efin].
  - unfold recompute. simpl.
    destruct (fill_maddata _ _ _ _ _); simpl; [| discriminate].
    intros [= <-]. simpl. repeat split; reflexivity.
Qed.

(** Every reachable state keeps the high-water index inside a capacity
    that is a power of two between 2^20 and 2^63. *)
Lemma reachable_well_sized (s : engine) : reachable s -> well_sized s.
Proof.
  induction 1 as [| s data count s' _ IH [Hd _] _ Hadd
                  | s s' _ IH Hfin | s _ IH].
  - exact new_well_sized.
  - exact (proj1 (add_Returns s s' data count IH Hd Hadd)).
  - destruct (finalizeData_Returns_sized s s' Hfin) as (_ & Ea & Em & _).
    unfold well_sized. rewrite Ea, Em. exact IH.
  - exact IH.
Qed.

Lemma well_sized_no_wrap (s : engine) :
  well_sized s -> 0 <= _histogramMax s /\ _histogramMax s + 1 < 2 ^ 64.
Proof.
  intros [Hmax (k & Hk & Ealloc)].
  assert (2 ^ k <= 2 ^ 63) by (apply Z.pow_le_mono_r; lia). lia.
Qed.

(** C5.  In every state reachable from a new engine through [add] (and
    through the accessors and [clearStatistics]), the recomputation in
    [finalizeData] returns, so the [assert] on the deviation does not
    fail; and every deviation from the median it stores, over the indices
    0..max, is below the size [max + 1] of the secondary histogram. *)
Theorem deviation_within_maddata (s : engine) (Hreach : reachable s) :
  exists s',
    recompute s = Returns s' /\
    forall ii, 0 <= ii <= _histogramMax s ->
      Z.abs (ii - _median s') < wrap64 (_histogramMax s + 1).
Proof.
  destruct (well_sized_no_wrap s (reachable_well_sized s Hreach)) as [Hlo Hhi].
  destruct (recompute_Returns s Hlo Hhi)
    as (s' & Hrec & _ & _ & _ & _ & _ & _ & Emed).
  exists s'. split; [exact Hrec |].
  intros ii Hii. rewrite wrap64_small by (unfold is_uint64; lia).
  pose proof (scan_half_first_reaching (_histogram s) (_histogramMax s) Hlo)
    as Hmed. cbv zeta in Hmed. destruct Hmed as (Hmed & _).
  rewrite <- Emed in Hmed. lia.
Qed.

(** C8, amended.  On a dirty state (the flag is down, as after every
    [add]) whose high-water index is a valid loop bound, [finalizeData]
    returns, and the mode it stores is the smallest index in 0..max whose
    counter is the greatest: no counter in 0..max is above it and every
    counter at a smaller index is strictly below. *)
Theorem mode_is_first_maximum (s : engine)
    (Hdirty : _finalized s = false)
    (Hmax : 0 <= _histogramMax s < 2 ^ 64 - 1) :
  exists s',
    finalizeData s = Returns s' /\
    0 <= _mode s' <= _histogramMax s /\
    (forall j, 0 <= j <= _histogramMax s ->
       histogram s j <= histogram s (_mode s')) /\
    (forall j, 0 <= j < _mode s' ->
       histogram s j < histogram s (_mode s')).
Proof.
  destruct (recompute_Returns s ltac:(lia) ltac:(lia))
    as (s' & Hrec & _ & _ & _ & _ & _ & Emode & _).
  exists s'. unfold finalizeData. rewrite Hdirty.
  split; [exact Hrec |]. rewrite Emode. unfold histogram.
  apply scan_mode_first_maximum. lia.
Qed.

(** What the median loop computes: on a dirty state [finalizeData]
    returns, and the median it stores is the smallest index in 0..max at
    which the running sum of the counters is at least the integer
    quotient [numObjs / 2]. *)
Lemma median_is_first_reaching_quotient (s : engine) :
  _finalized s = false -> 0 <= _histogramMax s < 2 ^ 64 - 1 ->
  exists s',
    finalizeData s = Returns s' /\
    0 <= _median s' <= _histogramMax s /\
    _numObjs s' / 2 <= count_objects (_histogram s) (_median s') /\
    (forall j, 0 <= j < _median s' ->
       count_objects (_histogram s) j < _numObjs s' / 2).
Proof.
  intros Hdirty Hmax.
  destruct (recompute_Returns s ltac:(lia) ltac:(lia))
    as (s' & Hrec & _ & _ & _ & _ & Enum & _ & Emed).
  exists s'. unfold finalizeData. rewrite Hdirty.
  split; [exact Hrec |]. rewrite Emed, Enum.
  apply scan_half_first_reaching. lia.
Qed.

End EngineFacts.

(** A witness of [deviation_within_maddata]: the engine after [add(7, 2)]. *)
Lemma deviation_within_maddata_after_add :
  exists s : Histogram.histogramStatistics float,
    Histogram.add Histogram.new 7 2 = Returns s /\
    Histogram.reachable s /\
    exists s',
      Histogram.recompute s = Returns s' /\
      forall ii, 0 <= ii <= Histogram._histogramMax s ->
        Z.abs (ii - Histogram._median s')
          < wrap64 (Histogram._histogramMax s + 1).
Proof.
  eexists. split; [reflexivity |].
  assert (Hreach : Histogram.reachable
            (Histogram.mkHistogram (D := float) false (2 ^ 20) 7
               (<[7 := 2]> ∅) 0 0%float 0%float 0 0 0)).
  { apply (Histogram.reach_add Histogram.new 7 2).
    - apply Histogram.reach_new.
    - unfold is_uint64. lia.
    - unfold is_uint32. lia.
    - reflexivity. }
  split; [exact Hreach |].
  exact (deviation_within_maddata _ Hreach).
Defined.

(** A witness of [mode_is_first_maximum], and the tie of the spec: for
    the histogram {0:3, 5:3} the mode is 0. *)
Lemma mode_tie_lowest_index :
  exists s s' : Histogram.histogramStatistics float,
    Histogram.add_all [(0, 3); (5, 3)] Histogram.new = Returns s /\
    Histogram._finalized s = false /\
    0 <= Histogram._histogramMax s < 2 ^ 64 - 1 /\
    Histogram.finalizeData s = Returns s' /\
    Histogram._mode s' = 0 /\
    (forall j, 0 <= j <= Histogram._histogramMax s ->
       Histogram.histogram s j <= Histogram.histogram s (Histogram._mode s')).
Proof.
  eexists.
  assert (Hdirty : Histogram._finalized
            (Histogram.mkHistogram (D := float) false (2 ^ 20) 5
               (<[5 := 3]> (<[0 := 3]> ∅)) 0 0%float 0%float 0 0 0) = false)
    by reflexivity.
  assert (Hmax : 0 <= Histogram._histogramMax
            (Histogram.mkHistogram (D := float) false (2 ^ 20) 5
               (<[5 := 3]> (<[0 := 3]> ∅)) 0 0%float 0%float 0 0 0)
            < 2 ^ 64 - 1) by (simpl; lia).
  destruct (mode_is_first_maximum _ Hdirty Hmax)
    as (s' & Hfin & _ & Hgreatest & _).
  exists s'.
  split; [reflexivity |].
  split; [exact Hdirty |]. split; [exact Hmax |].
  split; [exact Hfin |]. split; [| exact Hgreatest].
  vm_compute in Hfin. injection Hfin as <-. reflexivity.
Defined.

(** C4, the case the code gets right: for the histogram
    {1:1, 2:1, 3:1, 4:1} the median is 2. *)
Lemma median_of_four :
  exists s s' : Histogram.histogramStatistics float,
    Histogram.add_all [(1, 1); (2, 1); (3, 1); (4, 1)] Histogram.new
      = Returns s /\
    Histogram.median s = Returns (2, s').
Proof.
  eexists. eexists. split; [reflexivity |]. vm_compute. reflexivity.
Qed.

(** C4 fails on an odd total.  After the single call [add(5)] the total
    is 1 and the only sample is 5; the running sum at index 0 is 0, below
    half the total, and reaches it only at index 5; yet [median()]
    returns 0, because the loop compares with the quotient 1 / 2 = 0. *)
Theorem median_of_one_sample :
  exists s s' : Histogram.histogramStatistics float,
    Histogram.add Histogram.new 5 1 = Returns s /\
    Histogram.median s = Returns (0, s') /\
    Histogram._numObjs s' = 1 /\
    Histogram.count_objects (Histogram._histogram s) 0 = 0 /\
    Histogram.count_objects (Histogram._histogram s) 4 = 0 /\
    Histogram.count_objects (Histogram._histogram s) 5 = 1.
Proof.
  eexists. eexists. split; [reflexivity |].
  split; [vm_compute; reflexivity |].
  repeat split; vm_compute; reflexivity.
Qed.

(** C1 fails on a tie with a run of zeros.  On [0,0,0,5,5,5] both runs
    have three elements and the run of 0 comes first, yet [computeMode]
    returns 5, sorted beforehand or not: the run of 0 is counted from the
    initial [modeTmpCnt = 0], every later run from 1 plus one per element,
    so the run of 5 is held to be longer. *)
Theorem computeMode_tie_with_zero_run :
  Batch.computeMode [0; 0; 0; 5; 5; 5] false = 5 /\
  Batch.computeMode [0; 0; 0; 5; 5; 5] true = 5 /\
  Batch.computeMode [5; 0; 5; 0; 5; 0] false = 5 /\
  Batch.computeMode [1; 1; 1; 5; 5; 5] false = 1.
Proof. repeat split; vm_compute; reflexivity. Qed.

(** ** The histogram engine: the cache *)

Section CacheFacts.

Import Histogram.

Context {D : Type} {ops : DoubleOps D}.

#[local] Abbreviation engine := (histogramStatistics D).

Lemma call_reads_cache (a : accessor) (s : engine) :
  reads_cache a = true ->
  call a s = (s' ← finalizeData s; Returns (cached a s', s')).
Proof.
  intros Ha.
  destruct a; try discriminate Ha; simpl;
    unfold numberOfObjects, mean, stddev, median, mad;
    destruct (finalizeData s); reflexivity.
Qed.

(** C2, amended.  The five accessors of the cached statistics,
    [numberOfObjects], [mean], [stddev], [median] and [mad], run
    [finalizeData] first and return the field it leaves, and on a dirty
    state [finalizeData] is the full recomputation.  [histogram(i)] and
    [histogramMax] read the counters and the high-water index as they are
    and leave the state, dirty or not, untouched. *)
Theorem accessors_finalize_or_read (a : accessor) (s : engine) :
  call a s =
    (if reads_cache a
     then s' ← (if _finalized s then Returns s else recompute s);
          Returns (cached a s', s')
     else Returns (cached a s, s)) /\
  (reads_cache a = false <-> a = HistogramMax \/ exists ii, a = HistogramAt ii).
Proof.
  split.
  - destruct (reads_cache a) eqn:Ha.
    + apply call_reads_cache. exact Ha.
    + destruct a; try discriminate Ha; reflexivity.
  - split.
    + destruct a; try discriminate; intros _;
        [right; eexists; reflexivity | left; reflexivity].
    + intros [-> | [ii ->]]; reflexivity.
Qed.

(** On a state whose statistics are computed, a series of accessors of
    the statistics returns the cached fields and changes nothing. *)
Lemma calls_on_finalized (l : list accessor) (s : engine) :
  _finalized s = true ->
  forallb reads_cache l = true ->
  calls l s = Returns (map (fun a => cached a s) l, s).
Proof.
  intros Hfin. induction l as [| a l IH]; intros Hl; simpl; [reflexivity |].
  simpl in Hl. apply andb_prop in Hl. destruct Hl as [Ha Hl].
  rewrite (call_reads_cache a s Ha). unfold finalizeData. rewrite Hfin.
  simpl. rewrite (IH Hl). reflexivity.
Qed.

(** C10.  In every state, dirty or not, [clearStatistics] zeroes the six
    cached statistics and leaves the counters, the capacity, the
    high-water index and the flag as they are.  So when the statistics
    have been computed (the flag is up) and [clearStatistics] is called,
    every series of accessors of the statistics returns zeroes and
    recomputes nothing; an [add] that returns lowers the flag, and the
    accessor after it runs the recomputation. *)
Theorem clearStatistics_keeps_flag (s : engine) :
  let c := clearStatistics s in
  (_histogram c = _histogram s /\
   _histogramAlloc c = _histogramAlloc s /\
   _histogramMax c = _histogramMax s /\
   _finalized c = _finalized s) /\
  summary c = (0, dzero, dzero, 0, 0, 0) /\
  (_finalized s = true ->
   forall l, forallb reads_cache l = true ->
     calls l c = Returns (map zeroed l, c)) /\
  (forall data count s' a,
     add c data count = Returns s' ->
     reads_cache a = true ->
     _finalized s' = false /\
     call a s' = (s'' ← recompute s'; Returns (cached a s'', s''))).
Proof.
  intros c.
  split; [repeat split |]. split; [reflexivity |]. split.
  - intros Hfin l Hl. rewrite calls_on_finalized; [| exact Hfin | exact Hl].
    f_equal. f_equal. apply map_ext_in. intros a Ha.
    assert (Hr : reads_cache a = true).
    { rewrite forallb_forall in Hl. apply Hl. exact Ha. }
    destruct a; try discriminate Hr; reflexivity.
  - intros data count s' a Hadd Ha.
    assert (Hdirty : _finalized s' = false).
    { unfold add in Hadd. destruct (grow _ _ _ _ _) as [[? ?] |];
        [| discriminate]. injection Hadd as <-. reflexivity. }
    split; [exact Hdirty |].
    rewrite (call_reads_cache a s' Ha). unfold finalizeData.
    rewrite Hdirty. reflexivity.
Qed.

End CacheFacts.

(** C2 as stated fails for [histogramMax] (and [histogram(i)]): after
    [add(7)] the state is dirty; [histogramMax()] returns 7 and leaves the
    very same dirty state, with the stale count 0 in the cache, where
    [finalizeData] would have stored the count 1 and raised the flag. *)
Lemma histogramMax_leaves_dirty :
  exists s s1 : Histogram.histogramStatistics float,
    Histogram.add Histogram.new 7 1 = Returns s /\
    Histogram._finalized s = false /\
    Histogram.call Histogram.HistogramMax s = Returns (Histogram.Count 7, s) /\
    Histogram.call (Histogram.HistogramAt 7) s = Returns (Histogram.Count 1, s) /\
    Histogram._numObjs s = 0 /\
    Histogram.finalizeData s = Returns s1 /\
    Histogram._finalized s1 = true /\
    Histogram._numObjs s1 = 1.
Proof.
  eexists. eexists. split; [reflexivity |].
  split; [reflexivity |]. split; [reflexivity |]. split; [reflexivity |].
  split; [reflexivity |]. split; [vm_compute; reflexivity |].
  split; reflexivity.
Qed.

(** A witness of [clearStatistics_keeps_flag]: statistics computed after
    [add(7)], then cleared; the flag stays up, and [mean()] and [median()]
    return zeroes. *)
Lemma clearStatistics_keeps_flag_after_add :
  exists s0 s : Histogram.histogramStatistics float,
    Histogram.add Histogram.new 7 1 = Returns s0 /\
    Histogram.finalizeData s0 = Returns s /\
    Histogram._numObjs s = 1 /\
    Histogram._finalized s = true /\
    Histogram._finalized (Histogram.clearStatistics s) = true /\
    Histogram.calls [Histogram.Mean; Histogram.Median]
                    (Histogram.clearStatistics s)
      = Returns ([Histogram.Real 0%float; Histogram.Count 0],
                 Histogram.clearStatistics s).
Proof.
  eexists. eexists. split; [reflexivity |].
  split; [vm_compute; reflexivity |]. split; [reflexivity |].
  split; [reflexivity |]. split; [reflexivity |].
  exact (proj1 (proj2 (proj2
           (clearStatistics_keeps_flag
              (Histogram.mkHistogram (D := float) true (2 ^ 20) 7
                 (<[7 := 1]> ∅) 1 7%float 0%float 7 0 0))))
           eq_refl [Histogram.Mean; Histogram.Median] eq_refl).
Defined.

(** C8 as stated fails on a state whose flag is up.  After [add(7)],
    [finalizeData] and [clearStatistics], a state the public interface
    reaches, [finalizeData] takes its early return and leaves the mode 0,
    while the counter at 7, inside 0..max, is above the counter at 0. *)
Lemma mode_stale_after_clear :
  exists s0 s1 : Histogram.histogramStatistics float,
    Histogram.add Histogram.new 7 1 = Returns s0 /\
    Histogram.finalizeData s0 = Returns s1 /\
    Histogram.reachable (Histogram.clearStatistics s1) /\
    Histogram.finalizeData (Histogram.clearStatistics s1)
      = Returns (Histogram.clearStatistics s1) /\
    Histogram._mode (Histogram.clearStatistics s1) = 0 /\
    0 <= 7 <= Histogram._histogramMax (Histogram.clearStatistics s1) /\
    Histogram.histogram (Histogram.clearStatistics s1)
      (Histogram._mode (Histogram.clearStatistics s1)) = 0 /\
    Histogram.histogram (Histogram.clearStatistics s1) 7 = 1.
Proof.
  eexists. eexists. split; [reflexivity |].
  assert (Hdone : Histogram.finalizeData
            (Histogram.mkHistogram (D := float) false (2 ^ 20) 7
               (<[7 := 1]> ∅) 0 0%float 0%float 0 0 0)
          = Returns
              (Histogram.mkHistogram (D := float) true (2 ^ 20) 7
                 (<[7 := 1]> ∅) 1 7%float 0%float 7 0 0))
    by (vm_compute; reflexivity).
  split; [exact Hdone |]. split.
  - apply Histogram.reach_clear.
    eapply Histogram.reach_finalize; [| exact Hdone].
    apply (Histogram.reach_add Histogram.new 7 1).
    + apply Histogram.reach_new.
    + unfold is_uint64. lia.
    + unfold is_uint32. lia.
    + reflexivity.
  - split; [reflexivity |]. split; [reflexivity |].
    split; [simpl; lia |]. split; reflexivity.
Qed.

(** ** The histogram engine: order and grouping of the samples *)

Section BumpFacts.

Import Histogram.

Lemma slot_insert_eq (h : gmap Z Z) (i x : Z) : slot (<[i := x]> h) i = x.
Proof. unfold slot. rewrite lookup_insert_eq. reflexivity. Qed.

Lemma slot_insert_ne (h : gmap Z Z) (i j x : Z) :
  i <> j -> slot (<[i := x]> h) j = slot h j.
Proof. intros Hne. unfold slot. rewrite lookup_insert_ne by exact Hne. reflexivity. Qed.

Lemma wrap64_add_l (a b : Z) : wrap64 (wrap64 a + b) = wrap64 (a + b).
Proof. unfold wrap64. apply Zplus_mod_idemp_l. Qed.

(** Two calls of [add] commute. *)
Lemma bump_comm (hm : gmap Z Z * Z) (p q : Z * Z) :
  bump (bump hm p) q = bump (bump hm q) p.
Proof.
  destruct hm as [h m], p as [a c], q as [b d]. unfold bump. simpl.
  f_equal; [| lia].
  destruct (Z.eq_dec a b) as [-> | Hne].
  - rewrite !slot_insert_eq, !insert_insert_eq, !wrap64_add_l.
    f_equal. f_equal. lia.
  - rewrite !slot_insert_ne by congruence.
    apply insert_insert_ne. congruence.
Qed.

(** Two calls of [add] on one value are one call with the counts added. *)
Lemma bump_merge (hm : gmap Z Z * Z) (v c d : Z) :
  bump (bump hm (v, c)) (v, d) = bump hm (v, c + d).
Proof.
  destruct hm as [h m]. unfold bump. simpl. f_equal; [| lia].
  rewrite slot_insert_eq, insert_insert_eq, wrap64_add_l.
  f_equal. f_equal. lia.
Qed.

Lemma fold_bump_Permutation (l1 l2 : list (Z * Z)) :
  Permutation l1 l2 ->
  forall hm, fold_left bump l1 hm = fold_left bump l2 hm.
Proof.
  induction 1 as [| p l1 l2 _ IH | p q l | l1 l2 l3 _ IH12 _ IH23];
    intros hm; simpl.
  - reflexivity.
  - apply IH.
  - rewrite bump_comm. reflexivity.
  - rewrite IH12. apply IH23.
Qed.

Lemma fold_bump_repeat (v : Z) (n : nat) :
  forall hm,
    fold_left bump (units (repeat v (S n))) hm = bump hm (v, Z.of_nat (S n)).
Proof.
  induction n as [| n IH]; intros hm.
  - reflexivity.
  - change (fold_left bump (units (repeat v (S (S n)))) hm)
      with (fold_left bump (units (repeat v (S n))) (bump hm (v, 1))).
    rewrite IH, bump_merge. f_equal. f_equal. lia.
Qed.

(** Feeding the samples one at a time leaves the counters and the
    high-water index that feeding the pairs leaves. *)
Lemma fold_bump_expand (ps : list (Z * Z)) :
  Forall (fun p => 1 <= p.2) ps ->
  forall hm, fold_left bump (units (expand ps)) hm = fold_left bump ps hm.
Proof.
  induction 1 as [| [v c] ps Hc _ IH]; intros hm; [reflexivity |].
  simpl in Hc. simpl expand. unfold units. rewrite map_app, fold_left_app.
  fold (units (repeat v (Z.to_nat c))). fold (units (expand ps)).
  destruct (Z.to_nat c) as [| n] eqn:En; [lia |].
  rewrite fold_bump_repeat, <- En, Z2Nat.id by lia.
  simpl. apply IH.
Qed.

End BumpFacts.

Section OrderFacts.

Import Histogram.

Context {D : Type} {ops : DoubleOps D}.

#[local] Abbreviation engine := (histogramStatistics D).

(** A series of [add] with every value below 2^63 returns, and leaves
    the counters and high-water index of the [bump]s in turn. *)
Lemma add_all_Returns (l : list (Z * Z)) :
  Forall (fun p => 0 <= p.1 < 2 ^ 63) l ->
  forall s : engine,
    well_sized s -> _finalized s = false ->
    exists s',
      add_all l s = Returns s' /\
      well_sized s' /\ _finalized s' = false /\
      (_histogram s', _histogramMax s')
        = fold_left bump l (_histogram s, _histogramMax s).
Proof.
  induction 1 as [| [v c] l Hv _ IH]; intros s Hs Hfin.
  - exists s. repeat split; try assumption; apply Hs.
  - simpl in Hv. simpl.
    destruct (add_returns s v c Hs Hv) as [s1 Hadd]. rewrite Hadd. simpl.
    destruct (add_Returns s s1 v c Hs ltac:(lia) Hadd)
      as (Hs1 & Hfin1 & Edata & _).
    destruct (IH s1 Hs1 Hfin1) as (s' & Hall & Hs' & Hfin' & Edata').
    exists s'. split; [exact Hall |]. split; [exact Hs' |].
    split; [exact Hfin' |]. rewrite Edata', Edata. reflexivity.
Qed.

(** A series of [add] that holds a value from 2^63 on does not return. *)
Lemma add_all_never (l : list (Z * Z)) :
  Forall (fun p => 0 <= p.1) l ->
  Exists (fun p => 2 ^ 63 <= p.1) l ->
  forall s : engine, well_sized s -> add_all l s = Stops NeverReturns.
Proof.
  induction 1 as [| [v c] l Hv Hl IH]; intros Hex s Hs.
  - inversion Hex.
  - simpl in Hv. simpl.
    destruct (Z_lt_le_dec v (2 ^ 63)) as [Hlt | Hge].
    + destruct (add_returns s v c Hs ltac:(lia)) as [s1 Hadd].
      rewrite Hadd. simpl.
      apply IH.
      * inversion Hex as [? ? Hhead | ? ? Htail]; subst;
          [simpl in Hhead; lia | exact Htail].
      * exact (proj1 (add_Returns s s1 v c Hs Hv Hadd)).
    + destruct Hs as [_ (k & Hk & Ealloc)].
      unfold add. rewrite Ealloc, grow_never by lia. reflexivity.
Qed.

(** The statistics [finalizeData] stores on a dirty state depend on the
    counters and the high-water index only. *)
Lemma recompute_summary (s1 s2 : engine) :
  (_histogram s1, _histogramMax s1) = (_histogram s2, _histogramMax s2) ->
  (s' ← recompute s1; Returns (summary s'))
  = (s' ← recompute s2; Returns (summary s')).
Proof.
  intros [= Eh Em]. unfold recompute. simpl. rewrite Eh, Em.
  destruct (fill_maddata _ _ _ _ _); reflexivity.
Qed.

(** C9.  Take (value, count) pairs with 64-bit values and counts from 1
    to 2^32-1, in any order and grouping, and the same samples one at a
    time with count 1, in any order.  Feeding either to a new engine and
    reading the statistics gives the same outcome: the same count, mean,
    stddev, mode, median and MAD, or, when a value is 2^63 or more, an
    [add] that does not return on both sides.  When every value is below
    2^63 the statistics are returned. *)
Theorem add_order_grouping_invariant (ps : list (Z * Z)) (us : list Z)
    (Hps : Forall (fun p => is_uint64 p.1 /\ 1 <= p.2 < 2 ^ 32) ps)
    (Hperm : Permutation us (expand ps)) :
  summary_of (D := D) ps = summary_of (units us) /\
  (Forall (fun p => p.1 < 2 ^ 63) ps ->
   exists st, summary_of (D := D) ps = Returns st).
Proof.
  assert (Hcount : Forall (fun p : Z * Z => 1 <= p.2) ps).
  { eapply Forall_impl; [exact Hps |]. simpl. intros p Hp. lia. }
  assert (Hin : forall v, In v us <-> exists c, In (v, c) ps).
  { intros v. split.
    - intros Hv. apply (Permutation_in _ Hperm) in Hv.
      unfold expand in Hv. apply in_flat_map in Hv.
      destruct Hv as ([w c] & Hp & Hv). apply repeat_spec in Hv. subst v.
      exists c. exact Hp.
    - intros [c Hp]. apply (Permutation_in _ (Permutation_sym Hperm)).
      unfold expand. apply in_flat_map. exists (v, c).
      split; [exact Hp |]. simpl.
      rewrite List.Forall_forall in Hcount. specialize (Hcount _ Hp).
      simpl in Hcount.
      destruct (Z.to_nat c) eqn:En; [lia |]. left. reflexivity. }
  assert (Hrun : Forall (fun p => p.1 < 2 ^ 63) ps ->
            exists st, summary_of (D := D) ps = Returns st /\
                       summary_of (D := D) (units us) = Returns st).
  { intros Hsmall.
    assert (Hps' : Forall (fun p : Z * Z => 0 <= p.1 < 2 ^ 63) ps).
    { rewrite List.Forall_forall in *. intros p Hp.
      specialize (Hps p Hp). specialize (Hsmall p Hp).
      unfold is_uint64 in Hps. simpl in *. lia. }
    assert (Hus : Forall (fun p : Z * Z => 0 <= p.1 < 2 ^ 63) (units us)).
    { rewrite List.Forall_forall. intros [v c] Hp. unfold units in Hp.
      apply in_map_iff in Hp. destruct Hp as (w & [= <- <-] & Hw).
      apply Hin in Hw. destruct Hw as [c Hc].
      rewrite List.Forall_forall in Hps'. exact (Hps' _ Hc). }
    destruct (add_all_Returns ps Hps' new new_well_sized eq_refl)
      as (s1 & Hall1 & Hs1 & Hfin1 & Edata1).
    destruct (add_all_Returns (units us) Hus new new_well_sized eq_refl)
      as (s2 & Hall2 & Hs2 & Hfin2 & Edata2).
    assert (Edata : (_histogram s1, _histogramMax s1)
                    = (_histogram s2, _histogramMax s2)).
    { rewrite Edata1, Edata2, <- (fold_bump_expand ps Hcount).
      apply fold_bump_Permutation. unfold units.
      apply Permutation_map. symmetry. exact Hperm. }
    destruct (well_sized_no_wrap s1 Hs1) as [Hlo Hhi].
    destruct (recompute_Returns s1 Hlo Hhi) as (t1 & Hrec1 & _).
    exists (summary t1).
    pose proof (recompute_summary s1 s2 Edata) as Hsum.
    rewrite Hrec1 in Hsum. simpl in Hsum.
    unfold summary_of. rewrite Hall1, Hall2. simpl.
    unfold finalizeData. rewrite Hfin1, Hfin2, Hrec1. simpl.
    split; [reflexivity |]. symmetry. exact Hsum. }
  split; [| intros Hsmall; destruct (Hrun Hsmall) as (st & Hst & _);
            exists st; exact Hst].
  destruct (Forall_Exists_dec (fun p : Z * Z => p.1 < 2 ^ 63)
              (fun p : Z * Z => 2 ^ 63 <= p.1)
              (fun p => Z_lt_le_dec p.1 (2 ^ 63)) ps) as [Hsmall | Hbig'].
  - destruct (Hrun Hsmall) as (st & -> & ->). reflexivity.
  - assert (Hnneg : Forall (fun p : Z * Z => 0 <= p.1) ps).
    { eapply Forall_impl; [exact Hps |]. simpl. unfold is_uint64.
      intros p Hp. lia. }
    unfold summary_of.
    rewrite (add_all_never ps Hnneg Hbig' new new_well_sized).
    rewrite (add_all_never (units us)); [reflexivity | | | exact new_well_sized].
    + rewrite List.Forall_forall. intros [v c] Hp. unfold units in Hp.
      apply in_map_iff in Hp. destruct Hp as (w & [= <- <-] & Hw).
      apply Hin in Hw. destruct Hw as [c Hc].
      rewrite List.Forall_forall in Hnneg. exact (Hnneg _ Hc).
    + apply List.Exists_exists in Hbig'. destruct Hbig' as ([v c] & Hp & Hv).
      apply List.Exists_exists. exists (v, 1). split; [| exact Hv].
      unfold units. apply in_map_iff. exists v. split; [reflexivity |].
      apply Hin. exists c. exact Hp.
Qed.

End OrderFacts.

(** A witness of [add_order_grouping_invariant]: the samples 3, 3, 1 fed
    as [add(3, 2); add(1)] and as [add(1); add(3); add(3)]. *)
Lemma add_order_grouping_example :
  Forall (fun p => is_uint64 p.1 /\ 1 <= p.2 < 2 ^ 32) [(3, 2); (1, 1)] /\
  Permutation [1; 3; 3] (Histogram.expand [(3, 2); (1, 1)]) /\
  Histogram.summary_of (D := float) [(3, 2); (1, 1)]
  = Histogram.summary_of [(1, 1); (3, 1); (3, 1)].
Proof.
  assert (Hps : Forall (fun p : Z * Z => is_uint64 p.1 /\ 1 <= p.2 < 2 ^ 32)
                       [(3, 2); (1, 1)]).
  { repeat constructor; unfold is_uint64; simpl; lia. }
  assert (Hperm : Permutation [1; 3; 3] (Histogram.expand [(3, 2); (1, 1)])).
  { simpl. apply Permutation_sym.
    change [3; 3; 1] with ([3; 3] ++ [1]). change [1; 3; 3] with ([1] ++ [3; 3]).
    apply Permutation_app_comm. }
  split; [exact Hps |]. split; [exact Hperm |].
  exact (proj1 (add_order_grouping_invariant (D := float) _ _ Hps Hperm)).
Defined.

(** * Further properties of the code *)

(** ** The online estimator *)

Section WelfordMore.

Import Welford.

Context {D : Type} {ops : DoubleOps D}.

Lemma lor_bit31_twice (n : Z) :
  Z.lor (Z.lor n 0x80000000) 0x80000000 = Z.lor n 0x80000000.
Proof. rewrite <- Z.lor_assoc, Z.lor_diag. reflexivity. Qed.

(** X1.  [finalize] is final: on the state it leaves, [insert] and
    [remove] exit with the "has been finalized" message, whatever the
    count was, and a second [finalize] changes nothing. *)
Theorem finalize_is_final (st : stdDev D) (v : D) :
  insert (finalize st) v = Stops ExitFinalized /\
  remove (finalize st) v = Stops ExitFinalized /\
  finalize (finalize st) = finalize st.
Proof.
  pose proof (finalized_finalize st) as Hfin.
  pose proof (land_lor_bit31 (_nn st)) as Hbit.
  split; [| split].
  - unfold insert. rewrite Hfin.
    destruct (Z.eqb_spec (_nn (finalize st)) 0x7fffffff) as [E | _];
      [| reflexivity].
    exfalso. apply Hbit. simpl in E. rewrite E. reflexivity.
  - unfold remove. rewrite Hfin.
    destruct (Z.eqb_spec (_nn (finalize st)) 0) as [E | _]; [| reflexivity].
    exfalso. apply Hbit. simpl in E. rewrite E. reflexivity.
  - unfold finalize at 1. unfold stddev. rewrite Hfin.
    unfold finalize. simpl. rewrite lor_bit31_twice. reflexivity.
Qed.

(** X2.  [size()] counts the samples: on a 32-bit count word an [insert]
    that returns raises it by one, a [remove] that returns lowers it by
    one, and neither sets the finalized bit; [finalize] leaves [size()]
    and [mean()] as they are. *)
Theorem size_counts_samples (st : stdDev D) (v : D)
    (Hword : is_uint32 (_nn st)) :
  (forall st', insert st v = Returns st' ->
     size st' = size st + 1 /\ finalized st' = false) /\
  (forall st', remove st v = Returns st' ->
     size st' = size st - 1 /\ finalized st' = false) /\
  size (finalize st) = size st /\
  mean (finalize st) = mean st.
Proof.
  pose proof (finalized_range st Hword) as Hfin.
  destruct Hword as [Hlo Hhi].
  split; [| split; [| split]].
  - intros st'. unfold insert.
    destruct (Z.eqb_spec (_nn st) 0x7fffffff) as [E | Hne]; [discriminate |].
    rewrite Hfin.
    destruct (Z.ltb_spec (_nn st) (2 ^ 31)) as [Hlt | Hge]; [| discriminate].
    simpl. intros [= <-].
    assert (Hw : wrap32 (_nn st + 1) = _nn st + 1)
      by (apply wrap32_small; unfold is_uint32; lia).
    split.
    + unfold size. simpl. rewrite Hw, !land_low31.
      rewrite !Z.mod_small by lia. reflexivity.
    + rewrite finalized_range by (simpl; rewrite Hw; unfold is_uint32; lia).
      simpl. rewrite Hw.
      destruct (Z.ltb_spec (_nn st + 1) (2 ^ 31)); [reflexivity | lia].
  - intros st'. unfold remove.
    destruct (Z.eqb_spec (_nn st) 0) as [E | Hne]; [discriminate |].
    rewrite Hfin.
    destruct (Z.ltb_spec (_nn st) (2 ^ 31)) as [Hlt | Hge]; [| discriminate].
    simpl. intros [= <-].
    assert (Hw : wrap32 (_nn st - 1) = _nn st - 1)
      by (apply wrap32_small; unfold is_uint32; lia).
    split.
    + unfold size. simpl. rewrite Hw, !land_low31.
      rewrite !Z.mod_small by lia. reflexivity.
    + rewrite finalized_range by (simpl; rewrite Hw; unfold is_uint32; lia).
      simpl. rewrite Hw.
      destruct (Z.ltb_spec (_nn st - 1) (2 ^ 31)); [reflexivity | lia].
  - unfold size, finalize. simpl.
    rewrite Z.land_lor_distr_l.
    change (Z.land 0x80000000 0x7fffffff) with 0.
    apply Z.lor_0_r.
  - reflexivity.
Qed.

End WelfordMore.

(** A witness of [size_counts_samples]: the fresh binary64 estimator. *)
Lemma size_counts_samples_fresh :
  is_uint32 (Welford._nn (Welford.fresh (D := float))) /\
  Welford.size (Welford.finalize (Welford.fresh (D := float)))
  = Welford.size (Welford.fresh (D := float)).
Proof.
  assert (Hw : is_uint32 (Welford._nn (Welford.fresh (D := float))))
    by (unfold is_uint32; simpl; lia).
  split; [exact Hw |].
  exact (proj1 (proj2 (proj2
           (size_counts_samples (Welford.fresh (D := float)) 1%float Hw)))).
Defined.

(** ** The histogram engine: capacity, growth and the cache *)

Section GrowMore.

Import Histogram.

Lemma wrap64_double_pow (alloc j : Z) :
  0 <= j ->
  wrap64 (wrap64 (alloc * 2) * 2 ^ j) = wrap64 (alloc * 2 ^ (j + 1)).
Proof.
  intros Hj. unfold wrap64. rewrite Z.mul_mod_idemp_l by lia.
  f_equal. rewrite Z.pow_add_r by lia. change (2 ^ 1) with 2. ring.
Qed.

(** The loop does not leave on [fuel] turns exactly when every capacity
    it tries, the first and the [fuel] doublings, is at most [data]. *)
Lemma grow_None_iff (fuel : nat) (array : gmap Z Z) (max data : Z) :
  forall alloc, is_uint64 alloc ->
    grow fuel array max alloc data = None <->
    (forall j, 0 <= j <= Z.of_nat fuel -> wrap64 (alloc * 2 ^ j) <= data).
Proof.
  induction fuel as [| fuel IH]; intros alloc Halloc.
  - simpl. split.
    + destruct (Z.leb_spec alloc data) as [Hle | Hgt]; [| discriminate].
      intros _ j Hj. replace j with 0 by lia.
      rewrite Z.mul_1_r, wrap64_small by exact Halloc. exact Hle.
    + intros Hall. specialize (Hall 0 ltac:(lia)).
      rewrite Z.mul_1_r, wrap64_small in Hall by exact Halloc.
      destruct (Z.leb_spec alloc data); [reflexivity | lia].
  - simpl grow. unfold resizeArray.
    destruct (Z.leb_spec alloc data) as [Hle | Hgt].
    + rewrite (IH (wrap64 (alloc * 2)) (wrap64_range _)). split.
      * intros Hall j Hj. destruct (Z.eq_dec j 0) as [-> | Hne].
        -- rewrite Z.mul_1_r, wrap64_small by exact Halloc. exact Hle.
        -- specialize (Hall (j - 1) ltac:(lia)).
           rewrite wrap64_double_pow in Hall by lia.
           replace (j - 1 + 1) with j in Hall by lia. exact Hall.
      * intros Hall j Hj. rewrite wrap64_double_pow by lia.
        apply Hall. lia.
    + split; [discriminate |]. intros Hall. specialize (Hall 0 ltac:(lia)).
      rewrite Z.mul_1_r, wrap64_small in Hall by exact Halloc. lia.
Qed.

(** X4.  The growth loop of [add] leaves within 64 doublings or never:
    when 64 turns do not bring the 64-bit capacity above [data], no
    number of turns does. *)
Theorem grow_64_turns_decide (array : gmap Z Z) (max alloc data : Z)
    (Halloc : is_uint64 alloc) (Hdata : 0 <= data)
    (Hstuck : grow 64 array max alloc data = None) :
  forall fuel, grow fuel array max alloc data = None.
Proof.
  intros fuel. apply grow_None_iff; [exact Halloc |].
  intros j Hj.
  destruct (Z_le_gt_dec j 64) as [Hsmall | Hlarge].
  - apply (proj1 (grow_None_iff 64 array max data alloc Halloc) Hstuck).
    lia.
  - replace (alloc * 2 ^ j) with (alloc * 2 ^ (j - 64) * 2 ^ 64).
    + unfold wrap64. rewrite Z_mod_mult. exact Hdata.
    + rewrite <- Z.mul_assoc, <- Z.pow_add_r by lia. f_equal. f_equal. lia.
Qed.

End GrowMore.

(** A witness of [grow_64_turns_decide]: the new array asked for index
    2^63. *)
Lemma grow_64_turns_decide_top_bit :
  is_uint64 (1024 * 1024) /\ 0 <= 2 ^ 63 /\
  Histogram.grow 64 ∅ 0 (1024 * 1024) (2 ^ 63) = None /\
  Histogram.grow 1000 ∅ 0 (1024 * 1024) (2 ^ 63) = None.
Proof.
  assert (Ha : is_uint64 (1024 * 1024)) by (unfold is_uint64; lia).
  assert (Hd : 0 <= 2 ^ 63) by lia.
  assert (Hs : Histogram.grow 64 ∅ 0 (1024 * 1024) (2 ^ 63) = None)
    by (vm_compute; reflexivity).
  split; [exact Ha |]. split; [exact Hd |]. split; [exact Hs |].
  exact (grow_64_turns_decide ∅ 0 _ _ Ha Hd Hs 1000%nat).
Defined.

Section EngineMore.

Import Histogram.

Context {D : Type} {ops : DoubleOps D}.

#[local] Abbreviation engine := (histogramStatistics D).

(** X5.  In every reachable state the high-water index is inside the
    allocated array, and the capacity is a power of two between 2^20 and
    2^63: the loops of [finalizeData] and [writeHistogram], which run over
    0..[_histogramMax], stay inside the array. *)
Theorem reachable_within_capacity (s : engine) (Hreach : reachable s) :
  0 <= _histogramMax s < _histogramAlloc s /\
  2 ^ 20 <= _histogramAlloc s <= 2 ^ 63 /\
  exists k, _histogramAlloc s = 2 ^ k.
Proof.
  destruct (reachable_well_sized s Hreach) as [Hmax (k & Hk & Ealloc)].
  split; [exact Hmax |]. split.
  - rewrite Ealloc. split; apply Z.pow_le_mono_r; lia.
  - exists k. exact Ealloc.
Qed.

(** X6.  In a reachable state [add(data, count)] returns exactly when
    [data] is below 2^63; for a value with the top bit set the growth
    loop never leaves.  When it returns, the counter of [data] has
    advanced by [count] modulo 2^64, no other counter has changed, the
    high-water index is the greater of the old one and [data], the cache
    is marked dirty and the cached statistics are untouched. *)
Theorem add_returns_iff (s : engine) (data count : Z)
    (Hreach : reachable s) (Hdata : is_uint64 data) :
  ((exists s', add s data count = Returns s') <-> data < 2 ^ 63) /\
  (2 ^ 63 <= data -> add s data count = Stops NeverReturns) /\
  (forall s', add s data count = Returns s' ->
     histogram s' data = wrap64 (histogram s data + count) /\
     (forall ii, ii <> data -> histogram s' ii = histogram s ii) /\
     histogramMax s' = Z.max (histogramMax s) data /\
     _finalized s' = false /\
     summary s' = summary s).
Proof.
  pose proof (reachable_well_sized s Hreach) as Hs.
  destruct Hdata as [Hlo Hhi].
  assert (Hnever : 2 ^ 63 <= data -> add s data count = Stops NeverReturns).
  { intros Hge. destruct Hs as [_ (k & Hk & Ealloc)].
    unfold add. rewrite Ealloc, grow_never by lia. reflexivity. }
  split; [| split; [exact Hnever |]].
  - split.
    + intros [s' Hadd]. destruct (Z_lt_le_dec data (2 ^ 63)) as [? | Hge];
        [assumption |].
      rewrite (Hnever Hge) in Hadd. discriminate.
    + intros Hlt. apply add_returns; [exact Hs | lia].
  - intros s' Hadd.
    destruct (add_Returns s s' data count Hs Hlo Hadd)
      as (_ & Hfin & Edata & Esum).
    unfold bump in Edata. simpl in Edata. injection Edata as Eh Em.
    unfold histogram, histogramMax. rewrite Eh, Em.
    split; [apply slot_insert_eq |].
    split; [intros ii Hne; apply slot_insert_ne; congruence |].
    split; [reflexivity |]. split; [exact Hfin | exact Esum].
Qed.

(** X7.  What [median()] is: on a dirty state with a valid loop bound,
    [finalizeData] returns and the median is the smallest index in
    0..max at which the running sum of the counters is at least the
    integer quotient [numObjs / 2].  So twice the running sum at the
    median is at least [numObjs - 1], and for an even total it is at
    least [numObjs]: then the median is the first index where half the
    samples have been seen. *)
Theorem median_first_reaching_quotient (s : engine)
    (Hdirty : _finalized s = false)
    (Hmax : 0 <= _histogramMax s < 2 ^ 64 - 1) :
  exists s',
    finalizeData s = Returns s' /\
    _numObjs s' = count_objects (_histogram s) (_histogramMax s) /\
    0 <= _median s' <= _histogramMax s /\
    _numObjs s' / 2 <= count_objects (_histogram s) (_median s') /\
    (forall j, 0 <= j < _median s' ->
       count_objects (_histogram s) j < _numObjs s' / 2) /\
    _numObjs s' - 1 <= 2 * count_objects (_histogram s) (_median s') /\
    (Z.even (_numObjs s') = true ->
     _numObjs s' <= 2 * count_objects (_histogram s) (_median s') /\
     forall j, 0 <= j < _median s' ->
       2 * count_objects (_histogram s) j < _numObjs s').
Proof.
  destruct (recompute_Returns s ltac:(lia) ltac:(lia))
    as (s' & Hrec & _ & _ & _ & _ & Enum & _ & Emed).
  exists s'. unfold finalizeData. rewrite Hdirty.
  split; [exact Hrec |]. split; [exact Enum |].
  pose proof (scan_half_first_reaching (_histogram s) (_histogramMax s)
                ltac:(lia)) as Hscan.
  cbv zeta in Hscan. rewrite <- Emed, <- Enum in Hscan.
  destruct Hscan as (Hr & Hreach & Hbelow).
  split; [exact Hr |]. split; [exact Hreach |]. split; [exact Hbelow |].
  pose proof (Z.div_mod (_numObjs s') 2 ltac:(lia)) as Hdiv.
  pose proof (Z.mod_pos_bound (_numObjs s') 2 ltac:(lia)) as Hmod.
  split; [lia |].
  intros Heven. rewrite Z.even_spec in Heven.
  destruct Heven as [q Eq].
  assert (Ehalf : _numObjs s' / 2 = q).
  { rewrite Eq, Z.mul_comm. apply Z.div_mul. lia. }
  split; [lia |]. intros j Hj. specialize (Hbelow j Hj). lia.
Qed.

(** X8.  The cache: when an accessor of the statistics has returned, the
    flag is up, and calling it (or any series of accessors of the
    statistics) again returns the same cached values and leaves the very
    same state. *)
Theorem accessor_result_is_cached (a : accessor) (s s' : engine)
    (v : value D)
    (Ha : reads_cache a = true)
    (Hcall : call a s = Returns (v, s')) :
  _finalized s' = true /\
  v = cached a s' /\
  call a s' = Returns (v, s') /\
  (forall l, forallb reads_cache l = true ->
     calls l s' = Returns (map (fun b => cached b s') l, s')).
Proof.
  rewrite (call_reads_cache a s Ha) in Hcall.
  destruct (finalizeData s) as [s1 |] eqn:Efin; [| discriminate].
  simpl in Hcall. injection Hcall as <- <-.
  destruct (finalizeData_Returns_sized s s1 Efin) as (Hfin & _).
  split; [exact Hfin |]. split; [reflexivity |]. split.
  - rewrite (call_reads_cache a s1 Ha). unfold finalizeData.
    rewrite Hfin. reflexivity.
  - intros l Hl. apply calls_on_finalized; assumption.
Qed.

End EngineMore.

(** ** The histogram engine: what the counts add up to *)

Section CountFacts.

Import Histogram.

Lemma wrap64_idem (z : Z) : wrap64 (wrap64 z) = wrap64 z.
Proof. apply wrap64_small, wrap64_range. Qed.

Lemma wrap64_add_r (a b : Z) : wrap64 (a + wrap64 b) = wrap64 (a + b).
Proof. unfold wrap64. apply Zplus_mod_idemp_r. Qed.

Lemma wrap64_sub_l (a b : Z) : wrap64 (wrap64 a - b) = wrap64 (a - b).
Proof. unfold wrap64. apply Zminus_mod_idemp_l. Qed.

Lemma wrap64_sub_add_l (a b c : Z) :
  wrap64 (wrap64 a - b + c) = wrap64 (a - b + c).
Proof.
  replace (wrap64 a - b + c) with (wrap64 a + (c - b)) by lia.
  rewrite wrap64_add_l. f_equal. lia.
Qed.

(** Wraps inside a wrapped sum or difference can be dropped. *)
Ltac wrap64_inner :=
  repeat (rewrite wrap64_add_l || rewrite wrap64_add_r ||
          rewrite wrap64_sub_l || rewrite wrap64_sub_add_l);
  f_equal; lia.

Lemma count_objects_insert_above (h : gmap Z Z) (v w k : Z) :
  k < v -> count_objects (<[v := w]> h) k = count_objects h k.
Proof.
  intros Hk. destruct (Z_lt_le_dec k 0) as [Hneg | Hpos].
  - rewrite !count_objects_negative by exact Hneg. reflexivity.
  - revert Hk. pattern k. apply natlike_ind; [| | exact Hpos].
    + intros H0. rewrite !(count_objects_snoc _ 0) by lia.
      rewrite !count_objects_negative by lia.
      rewrite slot_insert_ne by lia. reflexivity.
    + intros j Hj IH Hlt.
      rewrite !(count_objects_snoc _ (Z.succ j)) by lia.
      replace (Z.succ j - 1) with j by lia.
      rewrite IH by lia. rewrite slot_insert_ne by lia. reflexivity.
Qed.

(** Writing [w] to the counter [v] moves every running sum from [v] on
    by the difference. *)
Lemma count_objects_insert (h : gmap Z Z) (v w : Z) (n : nat) :
  0 <= v ->
  count_objects (<[v := w]> h) (v + Z.of_nat n)
  = wrap64 (count_objects h (v + Z.of_nat n) - slot h v + w).
Proof.
  intros Hv. induction n as [| n IH].
  - rewrite Z.add_0_r.
    rewrite !(count_objects_snoc _ v) by exact Hv.
    rewrite count_objects_insert_above by lia.
    rewrite slot_insert_eq. wrap64_inner.
  - rewrite Nat2Z.inj_succ.
    replace (v + Z.succ (Z.of_nat n)) with (Z.succ (v + Z.of_nat n)) by lia.
    rewrite !(count_objects_snoc _ (Z.succ (v + Z.of_nat n))) by lia.
    replace (Z.succ (v + Z.of_nat n) - 1) with (v + Z.of_nat n) by lia.
    rewrite IH. rewrite slot_insert_ne by lia. wrap64_inner.
Qed.

Lemma count_objects_advance (h : gmap Z Z) (v x k : Z) :
  0 <= v <= k ->
  count_objects (<[v := wrap64 (slot h v + x)]> h) k
  = wrap64 (count_objects h k + x).
Proof.
  intros Hv. replace k with (v + Z.of_nat (Z.to_nat (k - v))) by lia.
  rewrite count_objects_insert by lia. wrap64_inner.
Qed.

(** Counters that are 0 above [m] add nothing to the running sum. *)
Lemma count_objects_beyond (h : gmap Z Z) (m : Z) (n : nat) :
  (forall ii, m < ii -> slot h ii = 0) -> 0 <= m ->
  count_objects h (m + Z.of_nat n) = count_objects h m.
Proof.
  intros Hzero Hm. induction n as [| n IH].
  - rewrite Z.add_0_r. reflexivity.
  - rewrite Nat2Z.inj_succ.
    replace (m + Z.succ (Z.of_nat n)) with (Z.succ (m + Z.of_nat n)) by lia.
    rewrite count_objects_snoc by lia.
    replace (Z.succ (m + Z.of_nat n) - 1) with (m + Z.of_nat n) by lia.
    rewrite IH, Hzero by lia. rewrite Z.add_0_r.
    apply wrap64_small, count_objects_range.
Qed.

Lemma bounded_empty : bounded (∅ : gmap Z Z, 0).
Proof.
  unfold bounded, slot. simpl. split; [lia |].
  split; intros ii; rewrite ?lookup_empty; simpl;
    [reflexivity | unfold is_uint64; lia].
Qed.

(** One [add] moves the total by its count and keeps the counters
    bounded by the high-water index. *)
Lemma bump_total (hm : gmap Z Z * Z) (p : Z * Z) :
  bounded hm -> 0 <= p.1 ->
  bounded (bump hm p) /\
  count_objects (bump hm p).1 (bump hm p).2
  = wrap64 (count_objects hm.1 hm.2 + p.2).
Proof.
  destruct hm as [h m], p as [v c]. unfold bounded, bump. simpl.
  intros (Hm & Hzero & Hrange) Hv. split.
  - split; [lia |]. split.
    + intros ii Hii. rewrite slot_insert_ne by lia. apply Hzero. lia.
    + intros ii. destruct (Z.eq_dec v ii) as [<- | Hne].
      * rewrite slot_insert_eq. apply wrap64_range.
      * rewrite slot_insert_ne by exact Hne. apply Hrange.
  - rewrite count_objects_advance by lia. f_equal. f_equal.
    replace (Z.max m v) with (m + Z.of_nat (Z.to_nat (Z.max m v - m))) by lia.
    apply count_objects_beyond; assumption.
Qed.

Lemma fold_bump_total (ps : list (Z * Z)) :
  Forall (fun p => 0 <= p.1) ps ->
  forall hm, bounded hm ->
    bounded (fold_left bump ps hm) /\
    count_objects (fold_left bump ps hm).1 (fold_left bump ps hm).2
    = fold_left (fun n p => wrap64 (n + p.2)) ps (count_objects hm.1 hm.2).
Proof.
  induction 1 as [| p ps Hp _ IH]; intros hm Hhm; simpl.
  - split; [exact Hhm | reflexivity].
  - destruct (bump_total hm p Hhm Hp) as [Hb Et].
    destruct (IH (bump hm p) Hb) as [Hb' Et'].
    split; [exact Hb' |]. rewrite Et', Et. reflexivity.
Qed.

Lemma count_objects_empty (k : Z) : count_objects ∅ k = 0.
Proof.
  destruct (Z_lt_le_dec k 0) as [Hneg | Hpos].
  - apply count_objects_negative. exact Hneg.
  - pattern k. apply natlike_ind; [| | exact Hpos].
    + rewrite count_objects_snoc, count_objects_negative by lia. reflexivity.
    + intros j Hj IH. rewrite count_objects_snoc by lia.
      replace (Z.succ j - 1) with j by lia. rewrite IH. reflexivity.
Qed.

(** What the loop that fills [maddata] leaves: the running sum of
    [maddata] up to [k] has grown by the counters of the indices within
    [k] of the median. *)
Lemma fill_maddata_near (h : gmap Z Z) (median mm k : Z) (idx : list Z) :
  0 <= median < 2 ^ 64 -> 0 <= k ->
  (forall ii, In ii idx -> 0 <= ii < 2 ^ 64 /\ 0 <= slot h ii) ->
  forall maddata maddata',
    fill_maddata h median mm maddata idx = Returns maddata' ->
    count_objects maddata' k
    = fold_left
        (fun n ii =>
           wrap64 (n + (if Z.abs (ii - median) <=? k then slot h ii else 0)))
        idx (count_objects maddata k).
Proof.
  intros Hmed Hk. induction idx as [| ii rest IH]; intros Hidx md md'; simpl.
  - intros [= <-]. reflexivity.
  - destruct (Hidx ii (or_introl eq_refl)) as [Hii Hslot].
    assert (Hrest : forall jj, In jj rest ->
                      0 <= jj < 2 ^ 64 /\ 0 <= slot h jj)
      by (intros jj Hjj; apply Hidx; right; exact Hjj).
    assert (Edev : (if ii <? median then wrap64 (median - ii)
                    else wrap64 (ii - median)) = Z.abs (ii - median)).
    { destruct (Z.ltb_spec ii median);
        rewrite wrap64_small by (unfold is_uint64; lia); lia. }
    rewrite Edev.
    destruct (Z.ltb_spec 0 (slot h ii)) as [Hpos | Hzero].
    + destruct (mm <=? Z.abs (ii - median)); [discriminate |].
      intros Hfill. rewrite (IH Hrest _ _ Hfill). f_equal.
      destruct (Z.leb_spec (Z.abs (ii - median)) k) as [Hle | Hgt].
      * apply count_objects_advance. lia.
      * rewrite count_objects_insert_above by lia.
        rewrite Z.add_0_r. symmetry.
        apply wrap64_small, count_objects_range.
    + intros Hfill. rewrite (IH Hrest _ _ Hfill). f_equal.
      replace (slot h ii) with 0 by lia.
      destruct (_ <=? _); rewrite Z.add_0_r; symmetry;
        apply wrap64_small, count_objects_range.
Qed.

(** Every index of 0..max lies within [max] of a median in 0..max. *)
Lemma near_all (h : gmap Z Z) (median max : Z) :
  0 <= median <= max -> near h median max max = count_objects h max.
Proof.
  intros Hmed. unfold near, count_objects.
  assert (Hin : forall ii, In ii (indices max) -> 0 <= ii <= max).
  { intros ii Hii. apply elem_of_indices, list_elem_of_In. exact Hii. }
  assert (Hfold : forall l acc,
            (forall ii, In ii l -> 0 <= ii <= max) ->
            fold_left
              (fun n ii =>
                 wrap64 (n + (if Z.abs (ii - median) <=? max
                              then slot h ii else 0))) l acc
            = fold_left (fun n ii => wrap64 (n + slot h ii)) l acc).
  { induction l as [| ii l IH]; intros acc Hl; simpl; [reflexivity |].
    specialize (Hl ii (or_introl eq_refl)) as Hii.
    destruct (Z.leb_spec (Z.abs (ii - median)) max); [| lia].
    apply IH. intros jj Hjj. apply Hl. right. exact Hjj. }
  apply Hfold. exact Hin.
Qed.

End CountFacts.

Section CountTheorems.

Import Histogram.

Context {D : Type} {ops : DoubleOps D}.

#[local] Abbreviation engine := (histogramStatistics D).

Lemma reachable_bounded (s : engine) :
  reachable s -> bounded (_histogram s, _histogramMax s).
Proof.
  induction 1 as [| s data count s' Hreach IH [Hd _] _ Hadd
                  | s s' _ IH Hfin | s _ IH].
  - exact bounded_empty.
  - destruct (add_Returns s s' data count
                (reachable_well_sized s Hreach) Hd Hadd) as (_ & _ & -> & _).
    exact (proj1 (bump_total _ (data, count) IH Hd)).
  - destruct (finalizeData_Returns_sized s s' Hfin) as (_ & _ & -> & ->).
    exact IH.
  - exact IH.
Qed.

(** X9.  [numberOfObjects()] is the number of samples fed: after a
    series of [add(value, count)] on a new engine, with every value below
    2^63, it returns the sum of the counts as a [uint64]. *)
Theorem numberOfObjects_is_total (ps : list (Z * Z))
    (Hps : Forall (fun p => 0 <= p.1 < 2 ^ 63) ps) :
  exists s s' : engine,
    add_all ps new = Returns s /\
    numberOfObjects s = Returns (total_count ps, s').
Proof.
  destruct (add_all_Returns ps Hps new new_well_sized eq_refl)
    as (s & Hall & Hs & Hfin & Edata).
  destruct (well_sized_no_wrap s Hs) as [Hlo Hhi].
  destruct (recompute_Returns s Hlo Hhi)
    as (s' & Hrec & _ & _ & _ & _ & Enum & _).
  exists s, s'. split; [exact Hall |].
  unfold numberOfObjects, finalizeData. rewrite Hfin, Hrec. simpl.
  rewrite Enum. f_equal. f_equal.
  assert (Hnneg : Forall (fun p : Z * Z => 0 <= p.1) ps).
  { eapply Forall_impl; [exact Hps |]. simpl. intros p Hp. lia. }
  destruct (fold_bump_total ps Hnneg (∅, 0) bounded_empty) as [_ Etot].
  change (_histogram s) with (_histogram s, _histogramMax s).1.
  change (_histogramMax s) with (_histogram s, _histogramMax s).2 at 2.
  rewrite Edata. simpl (_histogram new). simpl (_histogramMax new).
  rewrite Etot. simpl. rewrite count_objects_empty. reflexivity.
Qed.

(** X10.  What [mad()] is: in a reachable dirty state [finalizeData]
    returns, and the MAD is the smallest distance [d] in 0..max such that
    the samples within [d] of the median number at least the integer
    quotient [numObjs / 2]. *)
Theorem mad_first_reaching_quotient (s : engine)
    (Hreach : reachable s) (Hdirty : _finalized s = false) :
  exists s',
    finalizeData s = Returns s' /\
    0 <= _median s' <= _histogramMax s /\
    0 <= _mad s' <= _histogramMax s /\
    _numObjs s' / 2
      <= near (_histogram s) (_median s') (_histogramMax s) (_mad s') /\
    (forall j, 0 <= j < _mad s' ->
       near (_histogram s) (_median s') (_histogramMax s) j
         < _numObjs s' / 2).
Proof.
  destruct (well_sized_no_wrap s (reachable_well_sized s Hreach))
    as [Hlo Hhi].
  destruct (reachable_bounded s Hreach) as (_ & _ & Hrange). simpl in Hrange.
  pose proof (scan_half_first_reaching (_histogram s) (_histogramMax s) Hlo)
    as Hmed. cbv zeta in Hmed. destruct Hmed as (Hmed & _).
  set (h := _histogram s) in *. set (max := _histogramMax s) in *.
  set (n := count_objects h max) in *.
  set (median := scan_half h (n / 2) 0 (indices max)) in *.
  destruct (fill_maddata_returns h max median (indices max) Hmed Hhi
              (fun ii => proj1 (elem_of_indices _ ii)) ∅)
    as [maddata Hfill].
  assert (Hnear : forall k, 0 <= k ->
            count_objects maddata k = near h median max k).
  { intros k Hk. unfold near.
    rewrite (fill_maddata_near h median (wrap64 (max + 1)) k (indices max)
               ltac:(lia) Hk) with (maddata := ∅) (maddata' := maddata).
    - rewrite count_objects_empty. reflexivity.
    - intros ii Hii. apply list_elem_of_In, elem_of_indices in Hii.
      split; [lia |]. apply Hrange.
    - exact Hfill. }
  assert (Htotal : n / 2 <= count_objects maddata max).
  { rewrite Hnear, near_all by lia. fold n.
    pose proof (count_objects_range h max) as [Hn _]. fold n in Hn.
    apply Z.div_le_upper_bound; lia. }
  pose proof (scan_half_from maddata (n / 2) (Z.to_nat (max + 1)) 0
                ltac:(lia) ltac:(lia)) as Hscan.
  rewrite Z2Nat.id in Hscan by lia.
  replace (0 + (max + 1) - 1) with max in Hscan by lia.
  rewrite (count_objects_negative maddata (0 - 1)) in Hscan by lia.
  specialize (Hscan Htotal). cbv zeta in Hscan.
  fold (indices max) in Hscan.
  set (mad := scan_half maddata (n / 2) 0 (indices max)) in *.
  destruct Hscan as (Hr & Hreachd & Hbelow).
  eexists. split.
  - unfold finalizeData. rewrite Hdirty. unfold recompute. simpl.
    fold h max n median. rewrite Hfill. simpl. fold mad. reflexivity.
  - simpl. split; [exact Hmed |]. split; [lia |]. split.
    + rewrite <- Hnear by lia. exact Hreachd.
    + intros j Hj. rewrite <- Hnear by lia. apply Hbelow. lia.
Qed.

End CountTheorems.

(** ** Witnesses on the engine after [add(7, 2)] *)

Lemma after_add_7_2_reachable : Histogram.reachable after_add_7_2.
Proof.
  apply (Histogram.reach_add Histogram.new 7 2).
  - apply Histogram.reach_new.
  - unfold is_uint64. lia.
  - unfold is_uint32. lia.
  - reflexivity.
Qed.

Lemma reachable_within_capacity_after_add :
  Histogram.reachable after_add_7_2 /\
  0 <= Histogram._histogramMax after_add_7_2
    < Histogram._histogramAlloc after_add_7_2.
Proof.
  split; [exact after_add_7_2_reachable |].
  exact (proj1 (reachable_within_capacity _ after_add_7_2_reachable)).
Defined.

Lemma add_returns_iff_after_add :
  Histogram.reachable after_add_7_2 /\ is_uint64 (2 ^ 63) /\
  Histogram.add after_add_7_2 (2 ^ 63) 1 = Stops NeverReturns.
Proof.
  assert (Hd : is_uint64 (2 ^ 63)) by (unfold is_uint64; lia).
  split; [exact after_add_7_2_reachable |]. split; [exact Hd |].
  apply (proj1 (proj2 (add_returns_iff after_add_7_2 (2 ^ 63) 1
                         after_add_7_2_reachable Hd))).
  lia.
Defined.

Lemma median_first_reaching_quotient_after_add :
  Histogram._finalized after_add_7_2 = false /\
  0 <= Histogram._histogramMax after_add_7_2 < 2 ^ 64 - 1 /\
  exists s',
    Histogram.finalizeData after_add_7_2 = Returns s' /\
    Histogram._numObjs s' = 2 /\
    Histogram._median s' = 7.
Proof.
  assert (Hdirty : Histogram._finalized after_add_7_2 = false) by reflexivity.
  assert (Hmax : 0 <= Histogram._histogramMax after_add_7_2 < 2 ^ 64 - 1)
    by (simpl; lia).
  split; [exact Hdirty |]. split; [exact Hmax |].
  destruct (median_first_reaching_quotient after_add_7_2 Hdirty Hmax)
    as (s' & Hfin & _).
  exists s'. split; [exact Hfin |].
  vm_compute in Hfin. injection Hfin as <-. split; reflexivity.
Defined.

Lemma accessor_result_is_cached_after_add :
  exists s' : Histogram.histogramStatistics float,
    Histogram.call Histogram.Median after_add_7_2
      = Returns (Histogram.Count 7, s') /\
    Histogram.call Histogram.Median s' = Returns (Histogram.Count 7, s').
Proof.
  eexists.
  assert (Hcall : Histogram.call Histogram.Median after_add_7_2
                  = Returns (Histogram.Count 7,
                             Histogram.mkHistogram (D := float) true (2 ^ 20) 7
                               (<[7 := 2]> ∅) 2 7%float 0%float 7 7 0))
    by (vm_compute; reflexivity).
  split; [exact Hcall |].
  exact (proj1 (proj2 (proj2
           (accessor_result_is_cached Histogram.Median _ _ _ eq_refl Hcall)))).
Defined.

Lemma numberOfObjects_is_total_example :
  Forall (fun p : Z * Z => 0 <= p.1 < 2 ^ 63) [(3, 2); (1, 5)] /\
  total_count [(3, 2); (1, 5)] = 7 /\
  exists s s' : Histogram.histogramStatistics float,
    Histogram.add_all [(3, 2); (1, 5)] Histogram.new = Returns s /\
    Histogram.numberOfObjects s = Returns (total_count [(3, 2); (1, 5)], s').
Proof.
  assert (Hps : Forall (fun p : Z * Z => 0 <= p.1 < 2 ^ 63) [(3, 2); (1, 5)])
    by (repeat constructor; simpl; lia).
  split; [exact Hps |]. split; [reflexivity |].
  exact (numberOfObjects_is_total (D := float) _ Hps).
Defined.

Lemma mad_first_reaching_quotient_after_add :
  Histogram.reachable after_add_7_2 /\
  Histogram._finalized after_add_7_2 = false /\
  exists s',
    Histogram.finalizeData after_add_7_2 = Returns s' /\
    0 <= Histogram._mad s' <= Histogram._histogramMax after_add_7_2.
Proof.
  split; [exact after_add_7_2_reachable |]. split; [reflexivity |].
  destruct (mad_first_reaching_quotient after_add_7_2
              after_add_7_2_reachable eq_refl) as (s' & Hfin & _ & Hmad & _).
  exists s'. split; [exact Hfin | exact Hmad].
Defined.

(** ** [computeMode]: sorting and counting *)

Section SortFacts.

Import Batch.

Lemma times_app (x : Z) (p q : list Z) :
  times x (p ++ q) = times x p + times x q.
Proof. induction p as [| y p IH]; simpl; [reflexivity | rewrite IH; lia]. Qed.

Lemma times_range (x : Z) (l : list Z) :
  0 <= times x l <= Z.of_nat (length l).
Proof.
  induction l as [| y l IH]; simpl length; simpl times; [lia |].
  destruct (y =? x); lia.
Qed.

Lemma times_In (x : Z) (l : list Z) : In x l -> 1 <= times x l.
Proof.
  induction l as [| y l IH]; simpl; [tauto |].
  pose proof (times_range x l).
  intros [-> | Hin]; [rewrite Z.eqb_refl; lia |].
  specialize (IH Hin). destruct (y =? x); lia.
Qed.

Lemma times_not_In (x : Z) (l : list Z) : ~ In x l -> times x l = 0.
Proof.
  induction l as [| y l IH]; simpl; [reflexivity |].
  intros Hnot. destruct (Z.eqb_spec y x) as [-> | _]; [tauto |].
  rewrite IH by tauto. reflexivity.
Qed.

Lemma times_Permutation (x : Z) (l1 l2 : list Z) :
  Permutation l1 l2 -> times x l1 = times x l2.
Proof.
  induction 1 as [| y l1 l2 _ IH | y z l | l1 l2 l3 _ IH12 _ IH23]; simpl;
    [reflexivity | rewrite IH; reflexivity | lia | congruence].
Qed.

Lemma sort_insert_Permutation (x : Z) (l : list Z) :
  Permutation (x :: l) (sort_insert x l).
Proof.
  induction l as [| y l IH]; simpl; [reflexivity |].
  destruct (x <=? y); [reflexivity |].
  rewrite perm_swap. apply perm_skip. exact IH.
Qed.

(** [sort] rearranges: it keeps every element with its multiplicity. *)
Lemma sort_Permutation (l : list Z) : Permutation l (sort l).
Proof.
  induction l as [| x l IH]; simpl; [reflexivity |].
  rewrite <- sort_insert_Permutation. apply perm_skip. exact IH.
Qed.

Lemma sort_insert_sorted (x : Z) (l : list Z) :
  StronglySorted Z.le l -> StronglySorted Z.le (sort_insert x l).
Proof.
  induction 1 as [| y l Hl IH Hy]; simpl.
  - constructor; constructor.
  - destruct (Z.leb_spec x y) as [Hle | Hgt].
    + constructor; [constructor; assumption |].
      constructor; [exact Hle |].
      eapply List.Forall_impl; [| exact Hy]. simpl. intros z Hz. lia.
    + constructor; [exact IH |].
      apply (Permutation_Forall (sort_insert_Permutation x l)).
      constructor; [lia | exact Hy].
Qed.

(** [sort] leaves an ascending sequence. *)
Lemma sort_sorted (l : list Z) : StronglySorted Z.le (sort l).
Proof.
  induction l as [| x l IH]; simpl; [constructor |].
  apply sort_insert_sorted. exact IH.
Qed.

(** On an ascending sequence [sort] changes nothing. *)
Lemma sort_of_sorted (l : list Z) : StronglySorted Z.le l -> sort l = l.
Proof.
  induction 1 as [| x l Hl IH Hx]; simpl; [reflexivity |].
  rewrite IH. destruct l as [| y l]; simpl; [reflexivity |].
  apply List.Forall_inv in Hx.
  destruct (Z.leb_spec x y); [reflexivity | lia].
Qed.

End SortFacts.

(** ** [computeMode]: the scan over the sorted sequence *)

Section ModeFacts.

Import Batch.

Lemma weight_snoc_ne (lead : bool) (p : list Z) (d x : Z) :
  x <> d -> weight lead (p ++ [d]) x = weight lead p x.
Proof.
  intros Hne. unfold weight. rewrite times_app. simpl.
  destruct (Z.eqb_spec d x); [congruence | lia].
Qed.

Lemma weight_snoc_eq (lead : bool) (p : list Z) (d : Z) :
  weight lead (p ++ [d]) d = weight lead p d + 1.
Proof.
  unfold weight. rewrite times_app. simpl. rewrite Z.eqb_refl. lia.
Qed.

Lemma weight_range (lead : bool) (p : list Z) (x : Z) :
  In x p -> 1 <= weight lead p x <= Z.of_nat (length p) + 1.
Proof.
  intros Hin. unfold weight.
  pose proof (times_In x p Hin). pose proof (times_range x p).
  destruct (lead && (x =? 0)); lia.
Qed.

(** The first turn of the loop. *)
Lemma scanned_first (d : Z) :
  scanned (d =? 0) [d] (mode_step (mkScan 0 0 0 0) d).
Proof.
  unfold mode_step, keep_longer, scanned, weight. simpl.
  destruct (Z.eqb_spec d 0) as [-> | Hne]; simpl.
  - repeat split; try (left; reflexivity); try tauto.
    + intros x [<- | []]. lia.
    + left. repeat split. intros x [<- | []]. reflexivity.
  - rewrite Z.eqb_refl. simpl.
    repeat split; try (left; reflexivity); try discriminate.
    + intros x [<- | []]. lia.
    + left. repeat split. intros x [<- | []]. reflexivity.
Qed.

(** One more turn, on an element not below the ones before it. *)
Lemma scanned_step (lead : bool) (p : list Z) (s : mode_scan) (d : Z) :
  scanned lead p s ->
  (forall x, In x p -> x <= d) ->
  Z.of_nat (length p) + 2 < 2 ^ 32 ->
  scanned lead (p ++ [d]) (mode_step s d).
Proof.
  destruct s as [mc mv tc tv]. unfold scanned. simpl.
  intros (Hin & Hmax & Hlead & Htc & Hbest) Hd Hlen.
  pose proof (weight_range lead p tv Hin) as Hw.
  pose proof (Hd tv Hin) as Htv.
  assert (Hsplit : forall x, In x (p ++ [d]) -> In x p \/ x = d).
  { intros x Hx. apply in_app_or in Hx. destruct Hx as [? | [<- | []]]; auto. }
  unfold mode_step. simpl.
  destruct (Z.eqb_spec d tv) as [-> | Hne]; simpl.
  - rewrite wrap32_small by (unfold is_uint32; lia).
    split; [apply in_or_app; left; exact Hin |].
    split; [intros x Hx; destruct (Hsplit x Hx) as [? | ->]; [auto | lia] |].
    split; [intros Hl; apply in_or_app; left; auto |].
    split; [rewrite weight_snoc_eq; lia |].
    destruct Hbest as [(Emc & Emv & Hall) | (Hmv & Hlt & Emc & Hstrict & Hweak)].
    + left. repeat split; try assumption.
      intros x Hx. destruct (Hsplit x Hx) as [? | ->]; auto.
    + right. split; [apply in_or_app; left; exact Hmv |].
      split; [exact Hlt |].
      split; [rewrite weight_snoc_ne by lia; exact Emc |]. split.
      * intros x Hx Hxlt. destruct (Hsplit x Hx) as [Hxp | ->]; [| lia].
        rewrite weight_snoc_ne by lia. auto.
      * intros x Hx Hxlt. destruct (Hsplit x Hx) as [Hxp | ->]; [| lia].
        rewrite weight_snoc_ne by lia. auto.
  - assert (Hgt : tv < d) by lia.
    assert (Hnew : weight lead (p ++ [d]) d = 2).
    { rewrite weight_snoc_eq. unfold weight.
      rewrite times_not_In
        by (intros Hdp; specialize (Hmax d Hdp); lia).
      destruct lead; simpl; [| reflexivity].
      specialize (Hlead eq_refl). specialize (Hmax 0 Hlead).
      destruct (Z.eqb_spec d 0); [lia | reflexivity]. }
    change (wrap32 (1 + 1)) with 2.
    unfold keep_longer. simpl.
    destruct (Z.ltb_spec mc tc) as [Hupd | Hkeep]; simpl.
    + split; [apply in_or_app; right; left; reflexivity |].
      split; [intros x Hx; destruct (Hsplit x Hx) as [? | ->]; [auto | lia] |].
      split; [intros Hl; apply in_or_app; left; auto |].
      split; [symmetry; exact Hnew |].
      right. split; [apply in_or_app; left; exact Hin |].
      split; [exact Hgt |].
      split; [rewrite weight_snoc_ne by lia; exact Htc |]. split.
      * intros x Hx Hxlt. destruct (Hsplit x Hx) as [Hxp | ->]; [| lia].
        rewrite weight_snoc_ne by lia.
        destruct Hbest as [(_ & _ & Hall) | (_ & _ & _ & _ & Hweak)].
        -- specialize (Hall x Hxp). lia.
        -- specialize (Hweak x Hxp Hxlt). lia.
      * intros x Hx Hxlt. destruct (Hsplit x Hx) as [Hxp | ->]; [| lia].
        rewrite weight_snoc_ne by lia.
        destruct (Z.eq_dec x tv) as [-> | Hxne]; [lia |].
        assert (x < tv) by (specialize (Hmax x Hxp); lia).
        destruct Hbest as [(_ & _ & Hall) | (_ & _ & _ & _ & Hweak)].
        -- specialize (Hall x Hxp). lia.
        -- specialize (Hweak x Hxp ltac:(lia)). lia.
    + destruct Hbest as [(Emc & _) | (Hmv & Hlt & Emc & Hstrict & Hweak)];
        [lia |].
      split; [apply in_or_app; right; left; reflexivity |].
      split; [intros x Hx; destruct (Hsplit x Hx) as [? | ->]; [auto | lia] |].
      split; [intros Hl; apply in_or_app; left; auto |].
      split; [symmetry; exact Hnew |].
      right. split; [apply in_or_app; left; exact Hmv |].
      split; [lia |].
      split; [rewrite weight_snoc_ne by lia; exact Emc |]. split.
      * intros x Hx Hxlt. destruct (Hsplit x Hx) as [Hxp | ->]; [| lia].
        rewrite weight_snoc_ne by lia. auto.
      * intros x Hx Hxlt. destruct (Hsplit x Hx) as [Hxp | ->]; [| lia].
        rewrite weight_snoc_ne by lia.
        destruct (Z.eq_dec x tv) as [-> | Hxne]; [lia |].
        apply Hweak; [exact Hxp |]. specialize (Hmax x Hxp). lia.
Qed.

(** The whole loop, over an ascending rest. *)
Lemma scanned_fold (lead : bool) (rest : list Z) :
  forall (p : list Z) (s : mode_scan),
    scanned lead p s ->
    (forall x y, In x p -> In y rest -> x <= y) ->
    StronglySorted Z.le rest ->
    Z.of_nat (length (p ++ rest)) + 1 < 2 ^ 32 ->
    scanned lead (p ++ rest) (fold_left mode_step rest s).
Proof.
  induction rest as [| d rest IH]; intros p s Hs Hle Hsorted Hlen.
  - rewrite app_nil_r. exact Hs.
  - simpl. rewrite length_app in Hlen. simpl in Hlen.
    apply StronglySorted_inv in Hsorted. destruct Hsorted as [Hrest Hd].
    replace (p ++ d :: rest) with ((p ++ [d]) ++ rest)
      by (rewrite <- app_assoc; reflexivity).
    apply IH.
    + apply scanned_step; [exact Hs | | lia].
      intros x Hx. apply Hle; [exact Hx | left; reflexivity].
    + intros x y Hx Hy. apply in_app_or in Hx.
      destruct Hx as [Hx | [<- | []]].
      * apply Hle; [exact Hx | right; exact Hy].
      * rewrite List.Forall_forall in Hd. apply Hd. exact Hy.
    + exact Hrest.
    + rewrite !length_app. simpl. lia.
Qed.

(** What the final comparison picks. *)
Lemma scanned_result (lead : bool) (l : list Z) (s : mode_scan) :
  scanned lead l s ->
  let m := modeVal (keep_longer s) in
  In m l /\
  forall x, In x l ->
    weight lead l x <= weight lead l m /\
    (x < m -> weight lead l x < weight lead l m).
Proof.
  destruct s as [mc mv tc tv]. unfold scanned, keep_longer. simpl.
  intros (Hin & Hmax & Hlead & Htc & Hbest).
  pose proof (weight_range lead l tv Hin) as Hw.
  destruct (Z.ltb_spec mc tc) as [Hupd | Hkeep]; simpl.
  - split; [exact Hin |]. intros x Hx.
    destruct (Z.eq_dec x tv) as [-> | Hne]; [lia |].
    assert (x < tv) by (specialize (Hmax x Hx); lia).
    destruct Hbest as [(_ & _ & Hall) | (_ & _ & _ & _ & Hweak)].
    + specialize (Hall x Hx). lia.
    + specialize (Hweak x Hx ltac:(lia)). lia.
  - destruct Hbest as [(Emc & _) | (Hmv & Hlt & Emc & Hstrict & Hweak)];
      [lia |].
    split; [exact Hmv |]. intros x Hx. rewrite <- Emc.
    destruct (Z.eq_dec x tv) as [-> | Hne]; [lia |].
    assert (Hxt : x < tv) by (specialize (Hmax x Hx); lia).
    split; [apply Hweak; assumption |].
    intros Hxm. apply Hstrict; assumption.
Qed.

(** [computeMode] on a non-empty sequence, sorted by the caller when
    [isSorted] is set, is the scan of the sorted sequence. *)
Lemma computeMode_scanned (dist : list Z) (isSorted : bool) :
  dist <> [] ->
  Z.of_nat (length dist) < 2 ^ 32 - 1 ->
  (isSorted = true -> StronglySorted Z.le dist) ->
  exists s,
    computeMode dist isSorted = modeVal (keep_longer s) /\
    scanned (zero_first (sort dist)) (sort dist) s.
Proof.
  intros Hne Hlen Hsorted. unfold computeMode.
  destruct dist as [| a dist0] eqn:Edist; [congruence |]. rewrite <- Edist in *.
  assert (Escan : (if isSorted then dist else sort dist) = sort dist).
  { destruct isSorted; [| reflexivity].
    symmetry. apply sort_of_sorted. auto. }
  replace ((length dist =? 0)%nat) with false
    by (rewrite Edist; reflexivity).
  cbv zeta. rewrite Escan.
  pose proof (sort_sorted dist) as Hs.
  pose proof (Permutation_length (sort_Permutation dist)) as Elen.
  destruct (sort dist) as [| d rest] eqn:Esort.
  { rewrite Edist in Elen. discriminate Elen. }
  eexists. split; [reflexivity |]. simpl fold_left. simpl zero_first.
  apply StronglySorted_inv in Hs. destruct Hs as [Hrest Hd].
  change (d :: rest) with ([d] ++ rest).
  apply scanned_fold.
  - apply scanned_first.
  - intros x y [<- | []] Hy. rewrite List.Forall_forall in Hd. auto.
  - exact Hrest.
  - simpl app. rewrite <- Elen. lia.
Qed.

(** X11.  [computeMode] returns a mode: on a non-empty sequence of fewer
    than 2^32-1 elements (sorted by the caller when [isSorted] is set)
    the result is an element of the sequence and no value occurs more
    often. *)
Theorem computeMode_most_frequent (dist : list Z) (isSorted : bool)
    (Hne : dist <> [])
    (Hlen : Z.of_nat (length dist) < 2 ^ 32 - 1)
    (Hsorted : isSorted = true -> StronglySorted Z.le dist) :
  In (computeMode dist isSorted) dist /\
  forall x, times x dist <= times (computeMode dist isSorted) dist.
Proof.
  destruct (computeMode_scanned dist isSorted Hne Hlen Hsorted)
    as (s & -> & Hscan).
  pose proof Hscan as (_ & _ & Hlead & _).
  apply scanned_result in Hscan. cbv zeta in Hscan.
  destruct Hscan as [Hin Hbest].
  pose proof (sort_Permutation dist) as Hperm.
  set (m := modeVal (keep_longer s)) in *.
  split; [apply (Permutation_in _ (Permutation_sym Hperm)); exact Hin |].
  intros x.
  rewrite !(times_Permutation _ _ _ Hperm).
  destruct (in_dec Z.eq_dec x (sort dist)) as [Hx | Hx].
  - destruct (Hbest x Hx) as [Hweak Hstrict]. unfold weight in *.
    destruct (zero_first (sort dist)) eqn:Ezf; simpl in *; [| lia].
    destruct (Z.eqb_spec x 0) as [-> | Hx0];
      destruct (Z.eqb_spec m 0) as [Em | Hm0]; try lia.
    assert (0 < m); [| lia].
    pose proof (sort_sorted dist) as Hs.
    destruct (sort dist) as [| d rest]; [discriminate |].
    simpl in Ezf. apply Z.eqb_eq in Ezf. subst d.
    apply StronglySorted_inv in Hs. destruct Hs as [_ Hd].
    rewrite List.Forall_forall in Hd.
    destruct Hin as [E | Hin]; [lia |]. specialize (Hd m Hin). lia.
  - rewrite (times_not_In x _ Hx). apply times_range.
Qed.

(** X12.  Which mode [computeMode] returns.  Give every value of the
    sequence its number of occurrences plus one, but a 0 that is the least
    element just its number of occurrences.  [computeMode] returns the
    least value whose weight is the greatest: ties go to the smaller
    value, except that a least element 0 needs one occurrence more than
    every other value to win. *)
Theorem computeMode_least_heaviest (dist : list Z) (isSorted : bool)
    (Hne : dist <> [])
    (Hlen : Z.of_nat (length dist) < 2 ^ 32 - 1)
    (Hsorted : isSorted = true -> StronglySorted Z.le dist) :
  let lead := zero_first (sort dist) in
  let m := computeMode dist isSorted in
  forall x, In x dist ->
    weight lead dist x <= weight lead dist m /\
    (x < m -> weight lead dist x < weight lead dist m).
Proof.
  intros lead m x Hx. subst m.
  destruct (computeMode_scanned dist isSorted Hne Hlen Hsorted)
    as (s & -> & Hscan).
  apply scanned_result in Hscan. cbv zeta in Hscan.
  destruct Hscan as [_ Hbest].
  pose proof (sort_Permutation dist) as Hperm.
  specialize (Hbest x (Permutation_in _ Hperm Hx)).
  unfold weight in *. fold lead in Hbest.
  rewrite !(times_Permutation _ _ _ Hperm). exact Hbest.
Qed.

End ModeFacts.

(** A witness of [computeMode_most_frequent]. *)
Lemma computeMode_most_frequent_example :
  [3; 1; 3; 2] <> [] /\
  Z.of_nat (length [3; 1; 3; 2]) < 2 ^ 32 - 1 /\
  In (Batch.computeMode [3; 1; 3; 2] false) [3; 1; 3; 2] /\
  times 1 [3; 1; 3; 2] <= times (Batch.computeMode [3; 1; 3; 2] false) [3; 1; 3; 2].
Proof.
  assert (Hne : [3; 1; 3; 2] <> []) by discriminate.
  assert (Hlen : Z.of_nat (length [3; 1; 3; 2]) < 2 ^ 32 - 1) by (simpl; lia).
  assert (Hs : false = true -> StronglySorted Z.le [3; 1; 3; 2])
    by discriminate.
  split; [exact Hne |]. split; [exact Hlen |].
  destruct (computeMode_most_frequent [3; 1; 3; 2] false Hne Hlen Hs)
    as [Hin Hmost].
  split; [exact Hin | exact (Hmost 1)].
Defined.

(** A witness of [computeMode_least_heaviest]: the tie of [0,0,0,5,5,5],
    where the leading run of 0 weighs 3 and the run of 5 weighs 4. *)
Lemma computeMode_least_heaviest_example :
  [0; 0; 0; 5; 5; 5] <> [] /\
  Z.of_nat (length [0; 0; 0; 5; 5; 5]) < 2 ^ 32 - 1 /\
  weight (zero_first (Batch.sort [0; 0; 0; 5; 5; 5])) [0; 0; 0; 5; 5; 5] 0
  <= weight (zero_first (Batch.sort [0; 0; 0; 5; 5; 5])) [0; 0; 0; 5; 5; 5]
       (Batch.computeMode [0; 0; 0; 5; 5; 5] false).
Proof.
  assert (Hne : [0; 0; 0; 5; 5; 5] <> []) by discriminate.
  assert (Hlen : Z.of_nat (length [0; 0; 0; 5; 5; 5]) < 2 ^ 32 - 1)
    by (simpl; lia).
  assert (Hs : false = true -> StronglySorted Z.le [0; 0; 0; 5; 5; 5])
    by discriminate.
  split; [exact Hne |]. split; [exact Hlen |].
  exact (proj1 (computeMode_least_heaviest [0; 0; 0; 5; 5; 5] false
                  Hne Hlen Hs 0 (or_introl eq_refl))).
Defined.

(** ** [computeMedianAbsoluteDeviation] *)

Section MedianFacts.

Import Batch BatchMedian.

Lemma how_many_app (f : Z -> bool) (p q : list Z) :
  how_many f (p ++ q) = how_many f p + how_many f q.
Proof. induction p as [| x p IH]; simpl; [reflexivity | rewrite IH; lia]. Qed.

Lemma how_many_nonneg (f : Z -> bool) (l : list Z) : 0 <= how_many f l.
Proof. induction l as [| x l IH]; simpl; [lia | destruct (f x); lia]. Qed.

Lemma how_many_all (f : Z -> bool) (l : list Z) :
  (forall x, In x l -> f x = true) -> how_many f l = Z.of_nat (length l).
Proof.
  induction l as [| x l IH]; intros Hall; simpl length; simpl how_many;
    [reflexivity |].
  rewrite (Hall x (or_introl eq_refl)), IH; [lia |].
  intros y Hy. apply Hall. right. exact Hy.
Qed.

Lemma how_many_Permutation (f : Z -> bool) (l1 l2 : list Z) :
  Permutation l1 l2 -> how_many f l1 = how_many f l2.
Proof.
  induction 1 as [| y l1 l2 _ IH | y z l | l1 l2 l3 _ IH12 _ IH23]; simpl;
    [reflexivity | rewrite IH; reflexivity | lia | congruence].
Qed.

Lemma how_many_map (f : Z -> bool) (g : Z -> Z) (l : list Z) :
  how_many f (map g l) = how_many (fun x => f (g x)) l.
Proof. induction l as [| x l IH]; simpl; [reflexivity | rewrite IH; reflexivity]. Qed.

Lemma how_many_ext_in (f g : Z -> bool) (l : list Z) :
  (forall x, In x l -> f x = g x) -> how_many f l = how_many g l.
Proof.
  induction l as [| x l IH]; intros Hfg; simpl; [reflexivity |].
  rewrite (Hfg x (or_introl eq_refl)), IH; [reflexivity |].
  intros y Hy. apply Hfg. right. exact Hy.
Qed.

(** On [uint64] values the guarded subtraction does not wrap. *)
Lemma deviation_abs (median x : Z) :
  is_uint64 median -> is_uint64 x ->
  deviation median x = Z.abs (x - median).
Proof.
  unfold deviation, is_uint64. intros Hm Hx.
  destruct (Z.ltb_spec x median);
    rewrite wrap64_small by (unfold is_uint64; lia); lia.
Qed.

(** Around an element of an ascending sequence: what comes before is not
    above it, what comes after is not below. *)
Lemma sorted_around (p q : list Z) (m : Z) :
  StronglySorted Z.le (p ++ m :: q) ->
  (forall x, In x p -> x <= m) /\ (forall y, In y q -> m <= y).
Proof.
  induction p as [| a p IH]; simpl; intros Hs.
  - apply StronglySorted_inv in Hs. destruct Hs as [_ Hm].
    rewrite List.Forall_forall in Hm. split; [tauto | exact Hm].
  - apply StronglySorted_inv in Hs. destruct Hs as [Hs Ha].
    destruct (IH Hs) as [Hp Hq]. split; [| exact Hq].
    intros x [<- | Hx]; [| auto].
    rewrite List.Forall_forall in Ha. apply Ha.
    apply in_or_app. right. left. reflexivity.
Qed.

(** The element in the middle of an ascending sequence, at index
    [length / 2]: more than half of the elements are at most it, and at
    least half are at least it. *)
Lemma middle_of_sorted (d : list Z) :
  d <> [] -> StronglySorted Z.le d ->
  let m := nth (length d / 2) d 0 in
  In m d /\
  Z.of_nat (length d) < 2 * how_many (fun x => x <=? m) d /\
  Z.of_nat (length d) <= 2 * how_many (fun x => m <=? x) d.
Proof.
  intros Hne Hs m.
  assert (Hk : (length d / 2 < length d)%nat).
  { destruct d; [congruence |]. apply Nat.div_lt; simpl; lia. }
  destruct (nth_split d 0 Hk) as (p & q & Ed & Ep). fold m in Ed.
  split; [subst m; apply nth_In; exact Hk |].
  rewrite Ed in Hs. destruct (sorted_around p q m Hs) as [Hp Hq].
  pose proof (Nat.div_mod_eq (length d) 2) as Hdiv.
  pose proof (Nat.mod_upper_bound (length d) 2 ltac:(lia)) as Hmod.
  assert (Elen : length d = (length p + S (length q))%nat).
  { rewrite Ed at 1. rewrite length_app. reflexivity. }
  rewrite Ed at 2 4. rewrite !how_many_app. simpl how_many.
  rewrite Z.leb_refl.
  split.
  - rewrite (how_many_all _ p)
      by (intros x Hx; apply Z.leb_le; auto).
    pose proof (how_many_nonneg (fun x => x <=? m) q). lia.
  - rewrite (how_many_all _ q)
      by (intros x Hx; apply Z.leb_le; auto).
    pose proof (how_many_nonneg (fun x => m <=? x) p). lia.
Qed.

(** X13.  What [computeMedianAbsoluteDeviation] returns, for
    [TT = uint64], on a non-empty sequence of 64-bit values (sorted by the
    caller when [isSorted] is set).  The median is an element of the
    sequence, more than half of the elements are at most it and at least
    half are at least it.  The MAD is the distance of some element from
    the median, more than half of the elements lie within it of the
    median, and at least half lie at least that far. *)
Theorem median_and_mad_are_middles (dist : list Z) (isSorted : bool)
    (Hne : dist <> [])
    (Hrange : Forall is_uint64 dist)
    (Hsorted : isSorted = true -> StronglySorted Z.le dist) :
  let n := Z.of_nat (length dist) in
  let median := (computeMedianAbsoluteDeviation dist isSorted).1 in
  let mad := (computeMedianAbsoluteDeviation dist isSorted).2 in
  In median dist /\
  n < 2 * how_many (fun x => x <=? median) dist /\
  n <= 2 * how_many (fun x => median <=? x) dist /\
  (exists x, In x dist /\ mad = Z.abs (x - median)) /\
  n < 2 * how_many (fun x => Z.abs (x - median) <=? mad) dist /\
  n <= 2 * how_many (fun x => mad <=? Z.abs (x - median)) dist.
Proof.
  intros n median mad. subst n median mad.
  unfold computeMedianAbsoluteDeviation.
  replace ((length dist =? 0)%nat) with false
    by (destruct dist; [congruence | reflexivity]).
  cbv zeta.
  assert (Escan : (if isSorted then dist else sort dist) = sort dist).
  { destruct isSorted; [| reflexivity].
    symmetry. apply sort_of_sorted. auto. }
  rewrite Escan. simpl fst. simpl snd.
  pose proof (sort_Permutation dist) as Hperm.
  pose proof (Permutation_length Hperm) as Elen.
  assert (Hne' : sort dist <> []).
  { intros E. rewrite E in Elen. destruct dist; [congruence | discriminate]. }
  pose proof (middle_of_sorted (sort dist) Hne' (sort_sorted dist)) as Hmed.
  cbv zeta in Hmed.
  set (median := nth (length (sort dist) / 2) (sort dist) 0) in *.
  destruct Hmed as (Hin & Hle & Hge).
  rewrite <- Elen in Hle, Hge.
  rewrite <- (how_many_Permutation _ _ _ Hperm) in Hle.
  rewrite <- (how_many_Permutation _ _ _ Hperm) in Hge.
  apply (Permutation_in _ (Permutation_sym Hperm)) in Hin.
  rewrite List.Forall_forall in Hrange.
  pose proof (Hrange median Hin) as Hmedr.
  split; [exact Hin |].
  split; [exact Hle |]. split; [exact Hge |].
  set (devs := map (deviation median) (sort dist)).
  pose proof (sort_Permutation devs) as Hperm'.
  pose proof (Permutation_length Hperm') as Elen'.
  assert (Edevs : length devs = length dist).
  { unfold devs. rewrite length_map. symmetry. exact Elen. }
  assert (Hne'' : sort devs <> []).
  { intros E. rewrite E, Edevs in Elen'.
    destruct dist; [congruence | discriminate]. }
  pose proof (middle_of_sorted (sort devs) Hne'' (sort_sorted devs)) as Hmad.
  cbv zeta in Hmad.
  set (mad := nth (length (sort devs) / 2) (sort devs) 0) in *.
  destruct Hmad as (Hin' & Hle' & Hge').
  rewrite <- Elen', Edevs in Hle', Hge'.
  rewrite <- (how_many_Permutation _ _ _ Hperm') in Hle'.
  rewrite <- (how_many_Permutation _ _ _ Hperm') in Hge'.
  unfold devs in Hle', Hge'. rewrite how_many_map in Hle', Hge'.
  rewrite <- (how_many_Permutation _ _ _ Hperm) in Hle'.
  rewrite <- (how_many_Permutation _ _ _ Hperm) in Hge'.
  rewrite (how_many_ext_in _ (fun x => Z.abs (x - median) <=? mad)) in Hle'
    by (intros x Hx; rewrite deviation_abs by auto; reflexivity).
  rewrite (how_many_ext_in _ (fun x => mad <=? Z.abs (x - median))) in Hge'
    by (intros x Hx; rewrite deviation_abs by auto; reflexivity).
  split; [| split; assumption].
  apply (Permutation_in _ (Permutation_sym Hperm')) in Hin'.
  unfold devs in Hin'. apply in_map_iff in Hin'.
  destruct Hin' as (x & Ex & Hx).
  apply (Permutation_in _ (Permutation_sym Hperm)) in Hx.
  exists x. split; [exact Hx |].
  change (mad = Z.abs (x - median)). rewrite <- Ex.
  apply deviation_abs; auto.
Qed.

End MedianFacts.

(** A witness of [median_and_mad_are_middles]. *)
Lemma median_and_mad_example :
  [9; 1; 4; 2] <> [] /\
  Forall is_uint64 [9; 1; 4; 2] /\
  BatchMedian.computeMedianAbsoluteDeviation [9; 1; 4; 2] false = (4, 3) /\
  In (BatchMedian.computeMedianAbsoluteDeviation [9; 1; 4; 2] false).1
     [9; 1; 4; 2].
Proof.
  assert (Hne : [9; 1; 4; 2] <> []) by discriminate.
  assert (Hr : Forall is_uint64 [9; 1; 4; 2])
    by (repeat constructor; unfold is_uint64; lia).
  assert (Hs : false = true -> StronglySorted Z.le [9; 1; 4; 2])
    by discriminate.
  split; [exact Hne |]. split; [exact Hr |]. split; [reflexivity |].
  exact (proj1 (median_and_mad_are_middles [9; 1; 4; 2] false Hne Hr Hs)).
Defined.
